(** * BroadcastChannelSource: the channel-backed data-source adapter

    A shallow embedding of [BroadcastChannelSource] (the variant with the
    [success] / [error] reply messages and the [Resolver] pairs) and the
    properties of its outbound dispatcher, inbound proxy and reply router.

    Conventions of the embedding.
    - The source object is a record [Source]; every method is a function
      from the source before the call to the source after it and the
      method's result.  A [throw] (or, for an [async] method, a rejected
      promise) is the result [Throw e]; the mutations made before the
      throw stay in the returned source, as in JavaScript.
    - Calls into collaborators the class does not own (the transport, the
      listener chains, the inherited [transformed] and [sync]) are appended
      to the field [effects], in call order.
    - An [await] on a promise of a collaborator is taken as one step; the
      only promises on which a method really suspends are the ones it
      creates itself with [new Promise], kept in the field [promises].
      The one [await] whose two sides are also given apart is the one
      between the post of a request and the registration of its resolver
      ([BeginRequest] and [ResumeRequest] below): a reply can be handled in
      between.
    - [_requests] is a plain object of the language, used as a map.  The
      finite map [_requests] of the model holds its own properties and,
      under the key "__proto__", the value an assignment under that name
      made the prototype of the object: such an assignment adds no
      property, a read under that name finds the value again, and a
      [delete] under that name removes nothing. *)

From stdpp Require Import gmap strings list fin_maps.

Local Open Scope string_scope.
Local Open Scope list_scope.

(** ** Data model *)

Module Transform.
Record t := mk { id : string; operations : list string }.
End Transform.

Module Query.
Record t := mk { id : string; expression : string }.
End Query.

(** [QueryResultData | QueryResultData[] | Transform[] | undefined]: the
    values a request resolves with.  Record data is opaque here. *)
Inductive Value :=
| VUndefined
| VArray (transforms : list Transform.t)
| VData (data : string).

(** JavaScript [Error] values: the [TypeError] the runtime raises on a
    property access or destructuring of [undefined], and errors raised by
    collaborators (listeners, the transport, a remote peer). *)
Inductive Error :=
| TypeError (message : string)
| GenericError (message : string).

Inductive Message :=
| SyncMessage (transform : Transform.t)
| QueryMessage (query : Query.t)
| PullMessage (query : Query.t)
| UpdateMessage (transform : Transform.t)
| PushMessage (transform : Transform.t)
| SuccessMessage (id : string) (result : Value)
| ErrorMessage (id : string) (error : Error).

(** The first argument of a listener chain: the transform or the query. *)
Inductive Payload :=
| PTransform (transform : Transform.t)
| PQuery (query : Query.t).

(** The [hints] object of a proxied request: [{}] is [data := None]. *)
Record Hints := mkHints { data : option Value }.

Definition emptyHints : Hints := mkHints None.

(** [hints && hints.data]: an object is truthy, an absent property reads
    [undefined]. *)
Definition hints_data (hints : Hints) : Value :=
  match data hints with
  | Some v => v
  | None => VUndefined
  end.

(** The second argument of [settleInSeries]: a result or an error. *)
Inductive Arg :=
| AValue (result : Value)
| AError (error : Error).

(** How a promise created by the dispatcher stands. *)
Inductive Settlement :=
| Resolved (result : Value)
| Failed (error : Error).

Inductive PromiseState :=
| Pending
| Settled (outcome : Settlement).

(** [type Resolver = { resolve, reject }]: both closures come from one
    [new Promise] executor, so the pair is identified by the index of that
    promise in [promises]. *)
Record Resolver := mkResolver { promise : nat }.

(** The task descriptors [{ type, data }] pushed on [_requestQueue]. *)
Inductive Task :=
| proxyQuery (data : Query.t)
| proxyPull (data : Query.t)
| proxyUpdate (data : Transform.t)
| proxyPush (data : Transform.t).

(** The transport object held in [this.channel]. *)
Record Channel := mkChannel { channelName : string; closed : bool }.

(** Calls into collaborators, invocations of continuations and entries
    leaving the Correlation Table, as they happen. *)
Inductive Effect :=
| PostMessage (message : Message)
| Transformed (transforms : list Transform.t)
| FulfillInSeries (event : string) (payload : Payload) (hints : Hints)
| SettleInSeries (event : string) (payload : Payload) (arg : Arg)
| Sync (transform : Transform.t)
| Close
| SuperActivate
| SuperDeactivate
| Invoke (p : nat) (outcome : Settlement)
| Removed (id : string).

Record Source := mkSource {
  name : string;
  transformLog : list string;
  channel : option Channel;
  _channelName : string;
  _requests : gmap string Resolver;
  _requestQueue : list Task;
  promises : list PromiseState;
  effects : list Effect
}.

(** ** Results and the method monad *)

Inductive Result (A : Type) :=
| Ok (a : A)
| Throw (e : Error).
Arguments Ok {A} a.
Arguments Throw {A} e.

Definition M (A : Type) : Type := Source -> Source * Result A.

Definition ret {A} (a : A) : M A := fun s => (s, Ok a).

Definition throw {A} (e : Error) : M A := fun s => (s, Throw e).

Definition bind {A B} (m : M A) (k : A -> M B) : M B :=
  fun s =>
    match m s with
    | (s', Ok a) => k a s'
    | (s', Throw e) => (s', Throw e)
    end.

(** [try { body } catch (error) { handler }] *)
Definition try_catch {A} (body : M A) (handler : Error -> M A) : M A :=
  fun s =>
    match body s with
    | (s', Ok a) => (s', Ok a)
    | (s', Throw e) => handler e s'
    end.

Notation "'let*' x := m 'in' k" := (bind m (fun x => k))
  (at level 10, x name, m at level 100, k at level 200).
Notation "m ;; k" := (bind m (fun _ => k))
  (at level 100, k at level 200, right associativity).

(** What the caller of an [async] method that awaits one of its own
    promises holds: a settled promise, or a suspension on promise [p] with
    the rest of the method body [k]. *)
Inductive Async (A : Type) :=
| Fulfilled (a : A)
| Rejected (e : Error)
| Awaiting (p : nat) (k : Settlement -> Result A).
Arguments Fulfilled {A} a.
Arguments Rejected {A} e.
Arguments Awaiting {A} p k.

(** What the caller observes in source [s]: [None] while suspended. *)
Definition outcome {A} (call : Async A) (s : Source) : option (Result A) :=
  match call with
  | Fulfilled a => Some (Ok a)
  | Rejected e => Some (Throw e)
  | Awaiting p k =>
      match promises s !! p with
      | Some (Settled o) => Some (k o)
      | _ => None
      end
  end.

(** ** Field updates *)

Definition emit (e : Effect) (s : Source) : Source :=
  mkSource (name s) (transformLog s) (channel s) (_channelName s)
           (_requests s) (_requestQueue s) (promises s) (effects s ++ [e]).

Definition set_transformLog (log : list string) (s : Source) : Source :=
  mkSource (name s) log (channel s) (_channelName s)
           (_requests s) (_requestQueue s) (promises s) (effects s).

Definition set_channel (c : option Channel) (s : Source) : Source :=
  mkSource (name s) (transformLog s) c (_channelName s)
           (_requests s) (_requestQueue s) (promises s) (effects s).

Definition set_requests (r : gmap string Resolver) (s : Source) : Source :=
  mkSource (name s) (transformLog s) (channel s) (_channelName s)
           r (_requestQueue s) (promises s) (effects s).

Definition set_requestQueue (q : list Task) (s : Source) : Source :=
  mkSource (name s) (transformLog s) (channel s) (_channelName s)
           (_requests s) q (promises s) (effects s).

Definition set_promises (ps : list PromiseState) (s : Source) : Source :=
  mkSource (name s) (transformLog s) (channel s) (_channelName s)
           (_requests s) (_requestQueue s) ps (effects s).

(** ** Collaborators *)

(** Modelled from the spec: [this.transformLog.contains(id)], the
    membership check on the Transform Log. *)
Definition contains (log : list string) (id : string) : bool :=
  bool_decide (id ∈ log).

(** Modelled from the spec: [channel.postMessage] of the transport library
    (send(message) of the Channel Transport; no sends occur after close).
    The property access on a [channel] that is still [undefined] is the
    runtime's [TypeError]. *)
Definition postMessage (message : Message) : M unit :=
  fun s =>
    match channel s with
    | None => (s, Throw (TypeError "Cannot read property 'postMessage' of undefined"))
    | Some c =>
        if closed c
        then (s, Throw (GenericError "Cannot post message after channel has closed"))
        else (emit (PostMessage message) s, Ok tt)
    end.

(** Modelled from the spec: the inherited [transformed] of the base source
    class (apply a Transform to the local store and mark it applied): it
    notifies the [transform] listeners and appends to the Transform Log
    the ids the log does not hold yet. *)
Definition log_append (log : list string) (transform : Transform.t) : list string :=
  if contains log (Transform.id transform) then log
  else log ++ [Transform.id transform].

Definition transformed (transforms : list Transform.t) : M unit :=
  fun s =>
    (emit (Transformed transforms)
          (set_transformLog (foldl log_append (transformLog s) transforms) s),
     Ok tt).

(** Modelled from the spec: [_requestQueue.push(task)] of the base source
    class, a FIFO queue of descriptors. *)
Definition requestQueue_push (task : Task) : M unit :=
  fun s => (set_requestQueue (_requestQueue s ++ [task]) s, Ok tt).

(** [new Promise(executor)]: the promise gets the next free index and the
    executor runs at once with its two closures. *)
Definition newPromise (executor : Resolver -> Source -> Source) (s : Source)
  : Source * nat :=
  let p := length (promises s) in
  (executor (mkResolver p) (set_promises (promises s ++ [Pending]) s), p).

(** Calling [resolve(result)] or [reject(error)] of a [Resolver]: the call
    is recorded, and settles the promise if it is still pending. *)
Definition invoke (r : Resolver) (o : Settlement) (s : Source) : Source :=
  let s' := emit (Invoke (promise r) o) s in
  match promises s' !! promise r with
  | Some Pending => set_promises (<[promise r := Settled o]> (promises s')) s'
  | _ => s'
  end.

Definition resolve (r : Resolver) (result : Value) : M unit :=
  fun s => (invoke r (Resolved result) s, Ok tt).

Definition reject (r : Resolver) (error : Error) : M unit :=
  fun s => (invoke r (Failed error) s, Ok tt).

(** ** The class *)

Record BroadcastChannelSourceSettings := mkSettings {
  settings_name : option string;
  settings_channel : option string
}.

(** [value || fallback] on an optional string: [undefined] and the empty
    string are falsy. *)
Definition or_default (value : option string) (fallback : string) : string :=
  match value with
  | None => fallback
  | Some EmptyString => fallback
  | Some v => v
  end.

Definition constructor (settings : BroadcastChannelSourceSettings) : Source :=
  mkSource (or_default (settings_name settings) "broadcast")
           []
           None
           (or_default (settings_channel settings) "orbit")
           ∅ [] [] [].

(** [this._requests[id] = { resolve, reject }]: a property of the object,
    or, for the id "__proto__", its new prototype; either is the binding of
    [id] in the map. *)
Definition register (id : string) (r : Resolver) (s : Source) : Source :=
  set_requests (<[id := r]> (_requests s)) s.

(** The rest of an [async] body after [await promise; return value]. *)
Definition await_return (value : Value) (o : Settlement) : Result Value :=
  match o with
  | Resolved _ => Ok value
  | Failed e => Throw e
  end.

(** The rest of an [async] body that ends in [return promise]. *)
Definition return_promise (o : Settlement) : Result Value :=
  match o with
  | Resolved v => Ok v
  | Failed e => Throw e
  end.

(** The second half of the body shared by [_push], [_update], [_pull] and
    [_query], where the method resumes after its [await] on the post: a
    [new Promise] whose executor stores [{ resolve, reject }] under [id];
    the caller is left on that promise with the rest of the method, [k]. *)
Definition resume (id : string) (k : Settlement -> Result Value)
    (s : Source) : Source * Async Value :=
  let (s2, p) := newPromise (register id) s in
  (s2, Awaiting p k).

(** The whole body, when nothing is delivered to the node during the
    [await]: [await this.channel.postMessage(message)], and, unless the
    post raised, the resumption. *)
Definition request (message : Message) (id : string)
    (k : Settlement -> Result Value) (s : Source) : Source * Async Value :=
  match postMessage message s with
  | (s1, Throw e) => (s1, Rejected e)
  | (s1, Ok _) => resume id k s1
  end.

Definition _push (transform : Transform.t) (s : Source) : Source * Async Value :=
  if negb (contains (transformLog s) (Transform.id transform))
  then request (PushMessage transform) (Transform.id transform)
               (await_return (VArray [])) s
  else (s, Fulfilled (VArray [])).

Definition _update (transform : Transform.t) (s : Source) : Source * Async Value :=
  if negb (contains (transformLog s) (Transform.id transform))
  then request (UpdateMessage transform) (Transform.id transform)
               return_promise s
  else (s, Fulfilled VUndefined).

Definition _pull (query : Query.t) (s : Source) : Source * Async Value :=
  request (PullMessage query) (Query.id query) (await_return (VArray [])) s.

Definition _query (query : Query.t) (s : Source) : Source * Async Value :=
  request (QueryMessage query) (Query.id query) return_promise s.

Definition _sync (transform : Transform.t) : M unit :=
  fun s =>
    if negb (contains (transformLog s) (Transform.id transform))
    then (postMessage (SyncMessage transform) ;;
          transformed [transform]) s
    else (s, Ok tt).

(** [const { resolve } = this._requests[requestId]]: destructuring
    [undefined] is a [TypeError].  (Under a name that only the prototype
    chain answers, the value found has no [resolve]; the [delete] that
    follows removes nothing and the call of the missing [resolve] is the
    [TypeError]: the same outcome.) *)
Definition lookupRequest (requestId : string) : M Resolver :=
  fun s =>
    match _requests s !! requestId with
    | Some r => (s, Ok r)
    | None => (s, Throw (TypeError "Cannot destructure property of undefined"))
    end.

(** [delete this._requests[requestId]]: the property of that name leaves
    the object, if there is one.  There is none under "__proto__", where
    the binding is the prototype of the object and stays. *)
Definition deleteRequest (requestId : string) : M unit :=
  fun s =>
    if decide (requestId = "__proto__") then (s, Ok tt)
    else
      match _requests s !! requestId with
      | Some _ =>
          (emit (Removed requestId)
                (set_requests (delete requestId (_requests s)) s),
           Ok tt)
      | None => (s, Ok tt)
      end.

Definition resolveRequest (requestId : string) (result : Value) : M unit :=
  let* r := lookupRequest requestId in
  deleteRequest requestId ;;
  resolve r result.

Definition rejectRequest (requestId : string) (error : Error) : M unit :=
  let* r := lookupRequest requestId in
  deleteRequest requestId ;;
  reject r error.

(** Modelled from the spec: [this.sync(transform)], the public method of
    the base source class, called without [await]; what it does later is
    a call of the local caller ([CallSync] below), here it is recorded. *)
Definition sync (transform : Transform.t) : M unit :=
  fun s => (emit (Sync transform) s, Ok tt).

Definition handleMessage (message : Message) : M unit :=
  match message with
  | SyncMessage transform => sync transform
  | QueryMessage query => requestQueue_push (proxyQuery query)
  | PullMessage query => requestQueue_push (proxyPull query)
  | UpdateMessage transform => requestQueue_push (proxyUpdate transform)
  | PushMessage transform => requestQueue_push (proxyPush transform)
  | SuccessMessage id result => resolveRequest id result
  | ErrorMessage id error => rejectRequest id error
  end.

(** [await super._activate()], then the channel is opened under
    [_channelName] and [handleMessage] subscribed to it. *)
Definition _activate : M unit :=
  fun s =>
    (set_channel (Some (mkChannel (_channelName s) false))
                 (emit SuperActivate s),
     Ok tt).

(** Modelled from the spec: [channel.close()] of the transport library
    (closes the channel; closing a closed channel is not an error).  The
    property access on a [channel] that is still [undefined] is the
    runtime's [TypeError]. *)
Definition channel_close : M unit :=
  fun s =>
    match channel s with
    | None => (s, Throw (TypeError "Cannot read property 'close' of undefined"))
    | Some c => (set_channel (Some (mkChannel (channelName c) true)) (emit Close s), Ok tt)
    end.

Definition deactivate : M unit :=
  channel_close ;;
  (fun s => (emit SuperDeactivate s, Ok tt)).

(** ** The inbound proxy *)

Section Proxy.

(** What the listeners registered on this source make of
    [fulfillInSeries(this, event, payload, hints)]: the hints object as
    they leave it, and the error of the listener that rejects, if one
    does.  The listeners are collaborators; they see the payload and the
    hints object, not the private fields of the source. *)
Variable listeners : string -> Payload -> Hints -> Hints * option Error.

Definition fulfillInSeries (event : string) (payload : Payload)
    (hints : Hints) : M Hints :=
  fun s =>
    let s' := emit (FulfillInSeries event payload hints) s in
    match listeners event payload hints with
    | (hints', None) => (s', Ok hints')
    | (_, Some e) => (s', Throw e)
    end.

(** Modelled from the spec: [settleInSeries] of the listener registry
    (settle-all dispatch): every listener runs, whatever the others did, and
    the chain itself never rejects. *)
Definition settleInSeries (event : string) (payload : Payload)
    (arg : Arg) : M unit :=
  fun s => (emit (SettleInSeries event payload arg) s, Ok tt).

Definition __proxyQuery__ (query : Query.t) : M Value :=
  try_catch
    (let* hints := fulfillInSeries "beforeQuery" (PQuery query) emptyHints in
     let result := hints_data hints in
     settleInSeries "proxyQuery" (PQuery query) (AValue result) ;;
     postMessage (SuccessMessage (Query.id query) result) ;;
     ret result)
    (fun error =>
       settleInSeries "queryFail" (PQuery query) (AError error) ;;
       postMessage (ErrorMessage (Query.id query) error) ;;
       ret VUndefined).

Definition __proxyPull__ (query : Query.t) : M Value :=
  try_catch
    (fulfillInSeries "beforePull" (PQuery query) emptyHints ;;
     settleInSeries "proxyPull" (PQuery query) (AValue (VArray [])) ;;
     postMessage (SuccessMessage (Query.id query) VUndefined) ;;
     ret (VArray []))
    (fun error =>
       settleInSeries "pullFail" (PQuery query) (AError error) ;;
       postMessage (ErrorMessage (Query.id query) error) ;;
       ret VUndefined).

Definition __proxyUpdate__ (transform : Transform.t) : M Value :=
  fun s =>
    if contains (transformLog s) (Transform.id transform)
    then (s, Ok (VArray []))
    else
      try_catch
        (let* hints := fulfillInSeries "beforeUpdate" (PTransform transform) emptyHints in
         let result := hints_data hints in
         settleInSeries "proxyUpdate" (PTransform transform) (AValue result) ;;
         postMessage (SuccessMessage (Transform.id transform) result) ;;
         ret result)
        (fun error =>
           settleInSeries "updateFail" (PTransform transform) (AError error) ;;
           postMessage (ErrorMessage (Transform.id transform) error) ;;
           ret VUndefined)
        s.

Definition __proxyPush__ (transform : Transform.t) : M Value :=
  fun s =>
    if contains (transformLog s) (Transform.id transform)
    then (s, Ok (VArray []))
    else
      try_catch
        (fulfillInSeries "beforePush" (PTransform transform) emptyHints ;;
         settleInSeries "proxyPush" (PTransform transform) (AValue (VArray [])) ;;
         postMessage (SuccessMessage (Transform.id transform) VUndefined) ;;
         ret (VArray []))
        (fun error =>
           settleInSeries "pushFail" (PTransform transform) (AError error) ;;
           postMessage (ErrorMessage (Transform.id transform) error) ;;
           ret VUndefined)
        s.

(** Modelled from the spec: the performer of [_requestQueue] in the base
    source class; a descriptor of type [T] runs the method [__T__] on its
    data. *)
Definition perform (task : Task) : M Value :=
  match task with
  | proxyQuery query => __proxyQuery__ query
  | proxyPull query => __proxyPull__ query
  | proxyUpdate transform => __proxyUpdate__ transform
  | proxyPush transform => __proxyPush__ transform
  end.

(** Modelled from the spec: one turn of the queue's worker loop: the
    first descriptor is performed and, once it has settled, removed. *)
Definition processQueue : M Value :=
  fun s =>
    match _requestQueue s with
    | [] => (s, Ok VUndefined)
    | task :: _ =>
        let (s', r) := perform task s in
        (set_requestQueue (tail (_requestQueue s')) s', r)
    end.

(** ** Runs of a node *)

(** What can happen to a node, one at a time: a call of a method by the
    local caller, a message delivered by the transport, a turn of the
    request queue.  The four [Call] steps of a request are the whole
    method, post and registration with nothing in between; the two sides
    of its [await] are also steps of their own: [BeginRequest] is the
    method up to the [await], which posts the request, and [ResumeRequest]
    is its resumption, which registers the resolver. *)
Inductive Op :=
| Activate
| Deactivate
| CallPush (transform : Transform.t)
| CallUpdate (transform : Transform.t)
| CallPull (query : Query.t)
| CallQuery (query : Query.t)
| CallSync (transform : Transform.t)
| Deliver (message : Message)
| Process
| BeginRequest (message : Message)
| ResumeRequest (id : string).

Definition step (op : Op) (s : Source) : Source :=
  match op with
  | Activate => fst (_activate s)
  | Deactivate => fst (deactivate s)
  | CallPush transform => fst (_push transform s)
  | CallUpdate transform => fst (_update transform s)
  | CallPull query => fst (_pull query s)
  | CallQuery query => fst (_query query s)
  | CallSync transform => fst (_sync transform s)
  | Deliver message => fst (handleMessage message s)
  | Process => fst (processQueue s)
  | BeginRequest message => fst (postMessage message s)
  | ResumeRequest id => fst (resume id return_promise s)
  end.

Definition run (ops : list Op) (s : Source) : Source :=
  foldl (fun s op => step op s) s ops.

End Proxy.

(** ** Observations on the effects *)

(** How many times a continuation of promise [p] has been called. *)
Fixpoint invocations (p : nat) (es : list Effect) : nat :=
  match es with
  | [] => 0
  | Invoke q _ :: es' => (if decide (p = q) then 1 else 0) + invocations p es'
  | _ :: es' => invocations p es'
  end.

(** The messages posted on the channel, in order. *)
Fixpoint posted (es : list Effect) : list Message :=
  match es with
  | [] => []
  | PostMessage m :: es' => m :: posted es'
  | _ :: es' => posted es'
  end.

(** ** Vocabulary of the statements *)

(** [call], made on [s], posts [message], registers a fresh pending promise
    under [id] and leaves its caller suspended on it for as long as that
    promise is pending; whenever the entry is still the live one, a
    [success] reply for [id] carrying [result] makes the call resolve with
    [k result], and an [error] reply makes it fail with the carried
    error. *)
Definition awaits_reply (call : Source -> Source * Async Value)
    (message : Message) (id : string) (k : Value -> Value) (s : Source) : Prop :=
  exists s' p cont,
    call s = (s', Awaiting p cont) /\
    effects s' = effects s ++ [PostMessage message] /\
    _requests s' = <[id := mkResolver p]> (_requests s) /\
    promises s !! p = None /\
    promises s' !! p = Some Pending /\
    (forall s2,
        promises s2 !! p = Some Pending -> outcome (Awaiting p cont) s2 = None) /\
    forall s2,
      _requests s2 !! id = Some (mkResolver p) ->
      promises s2 !! p = Some Pending ->
      (forall result,
          outcome (Awaiting p cont)
                  (fst (handleMessage (SuccessMessage id result) s2))
          = Some (Ok (k result))) /\
      (forall error,
          outcome (Awaiting p cont)
                  (fst (handleMessage (ErrorMessage id error) s2))
          = Some (Throw error)).

(** The reply message that settles a request with outcome [o]. *)
Definition reply (id : string) (o : Settlement) : Message :=
  match o with
  | Resolved result => SuccessMessage id result
  | Failed error => ErrorMessage id error
  end.


(** The request message an outbound call posts, and the id it is
    correlated under. *)
Definition request_of (op : Op) : option (Message * string) :=
  match op with
  | CallPush transform => Some (PushMessage transform, Transform.id transform)
  | CallUpdate transform => Some (UpdateMessage transform, Transform.id transform)
  | CallPull query => Some (PullMessage query, Query.id query)
  | CallQuery query => Some (QueryMessage query, Query.id query)
  | _ => None
  end.

(** The Correlation Table, the promises and the recorded invocations of
    a source agree: a live entry holds a pending promise, two live entries
    never hold the same promise, and a promise has been invoked once if it
    is settled and never otherwise; nothing is bound under "__proto__". *)
Record consistent (s : Source) : Prop := mkConsistent {
  live_pending : forall id r,
    _requests s !! id = Some r -> promises s !! promise r = Some Pending;
  live_distinct : forall id1 id2 r1 r2,
    _requests s !! id1 = Some r1 -> _requests s !! id2 = Some r2 ->
    promise r1 = promise r2 -> id1 = id2;
  invoked_once : forall p,
    invocations p (effects s)
    = match promises s !! p with Some (Settled _) => 1 | _ => 0 end;
  no_proto : _requests s !! "__proto__" = None
}.

(** An effect that is not the call of a continuation. *)
Definition quiet (e : Effect) : Prop :=
  match e with
  | Invoke _ _ => False
  | _ => True
  end.

(** [s'] has the table, the promises and the invocations of [s]. *)
Definition same_table (s s' : Source) : Prop :=
  _requests s' = _requests s /\
  promises s' = promises s /\
  forall p, invocations p (effects s') = invocations p (effects s).

Definition keeps_table {A} (m : M A) : Prop :=
  forall s, same_table s (fst (m s)).

(** The source after a request was posted and its promise registered. *)
Definition registered (message : Message) (id : string) (s : Source) : Source :=
  register id (mkResolver (length (promises s)))
           (set_promises (promises s ++ [Pending]) (emit (PostMessage message) s)).

(** The source after the resumption of a request registered its
    promise. *)
Definition resumed (id : string) (s : Source) : Source :=
  register id (mkResolver (length (promises s)))
           (set_promises (promises s ++ [Pending]) s).

(** The source after the reply router found [r], ran the [delete] under
    [id] and then called the continuation. *)
Definition routed (id : string) (r : Resolver) (o : Settlement) (s : Source)
  : Source :=
  invoke r o (fst (deleteRequest id s)).

(** The id under which a step registers a resolver, if it gets that far. *)
Definition registers (op : Op) : option string :=
  match op with
  | CallPush transform => Some (Transform.id transform)
  | CallUpdate transform => Some (Transform.id transform)
  | CallPull query => Some (Query.id query)
  | CallQuery query => Some (Query.id query)
  | ResumeRequest id => Some id
  | _ => None
  end.

(** A run in which no request is made under the id "__proto__". *)
Definition plain (ops : list Op) : Prop :=
  Forall (fun op => registers op <> Some "__proto__") ops.

(** ** Sample nodes *)

(** A source with no listener registered. *)
Definition noListeners (event : string) (payload : Payload) (hints : Hints)
  : Hints * option Error := (hints, None).

(** A source whose [beforePush] and [beforeUpdate] listeners reject. *)
Definition validatingListeners (event : string) (payload : Payload)
    (hints : Hints) : Hints * option Error :=
  if bool_decide (event = "beforePush" ∨ event = "beforeUpdate")
  then (hints, Some (GenericError "ValidationFailed"))
  else (hints, None).

(** A source whose [beforeUpdate] listener supplies a result. *)
Definition cachingListeners (event : string) (payload : Payload)
    (hints : Hints) : Hints * option Error :=
  if bool_decide (event = "beforeUpdate")
  then (mkHints (Some (VData "cached")), None)
  else (hints, None).

Definition t1 : Transform.t := Transform.mk "t1" ["addRecord"].

(** A transform whose caller chose the id "__proto__". *)
Definition tProto : Transform.t := Transform.mk "__proto__" ["addRecord"].
Definition q1 : Query.t := Query.mk "q1" "findRecords".

(** Constructed, never activated. *)
Definition fresh : Source := constructor (mkSettings None None).

(** Constructed and activated. *)
Definition live : Source := fst (_activate fresh).

(** Activated, with [t1] already in the Transform Log. *)
Definition seen : Source := set_transformLog ["t1"] live.

(** ** Two nodes on one channel *)

(** The task descriptor [handleMessage] makes of a request message. *)
Definition task_of (message : Message) : option Task :=
  match message with
  | QueryMessage query => Some (proxyQuery query)
  | PullMessage query => Some (proxyPull query)
  | UpdateMessage transform => Some (proxyUpdate transform)
  | PushMessage transform => Some (proxyPush transform)
  | _ => None
  end.

(** The messages [s'] has posted since it was [s]. *)
Definition posted_since (s s' : Source) : list Message :=
  drop (length (posted (effects s))) (posted (effects s')).

(** A peer whose listeners are [listeners] is delivered [message], and its
    request queue takes one turn. *)
Definition proxied (listeners : string -> Payload -> Hints -> Hints * option Error)
    (message : Message) (peer : Source) : Source :=
  fst (processQueue listeners (fst (handleMessage message peer))).

(** One exchange over the channel: [call] is made on node [a], the messages
    it posts reach the peer [b], and the messages the peer posts while
    proxying them come back to [a].  The result is [a] and [b] afterwards
    and what the caller on [a] observes. *)
Definition exchange (listeners : string -> Payload -> Hints -> Hints * option Error)
    (call : Source -> Source * Async Value) (a b : Source)
  : Source * Source * option (Result Value) :=
  let a1 := fst (call a) in
  let b1 := foldl (fun s m => proxied listeners m s) b (posted_since a a1) in
  let a2 := foldl (fun s m => fst (handleMessage m s)) a1 (posted_since b b1) in
  (a2, b1, outcome (snd (call a)) a2).

(** The error [postMessage] raises on [s], if it does. *)
Definition post_failure (s : Source) : option Error :=
  match channel s with
  | None => Some (TypeError "Cannot read property 'postMessage' of undefined")
  | Some c =>
      if closed c
      then Some (GenericError "Cannot post message after channel has closed")
      else None
  end.

(** [op] is a call of [_sync]. *)
Definition is_sync (op : Op) : bool :=
  match op with
  | CallSync _ => true
  | _ => false
  end.

(** A source whose listeners answer every request with the same data. *)
Definition answeringListeners (event : string) (payload : Payload)
    (hints : Hints) : Hints * option Error :=
  (mkHints (Some (VData "rows")), None).

(** The method [m] leaves the observation [f] of the source as it was. *)
Definition preserves {A X} (f : Source -> X) (m : M A) : Prop :=
  forall s, f (fst (m s)) = f s.

(** ** The earlier variants of the class

    The repository keeps two earlier variants of [BroadcastChannelSource]:
    the first draft, whose only reply is a [result] message, and an interim
    one with a result message per request kind and no [reject] closure.
    Both store a bare [resolve] closure per request.  [Node] holds what the
    two share, over the message type [Msg] of the variant and the type [V]
    of the values its [resolve] closures are called with.

    The stored value being a function, two more things of the plain
    object [_requests] show in these variants.  A call
    [this._requests[id](value)] under a name the object does not hold goes
    to what the prototype chain answers under that name, and some of
    those functions return.  And an assignment under "__proto__" makes a
    function the prototype of the object, after which the names that are
    read-only on a function cannot be assigned under. *)

Module Node.
Section Node.
Variables Msg V : Type.

Inductive Effect :=
| PostMessage (message : Msg)
| Transformed (transforms : list Transform.t)
| FulfillInSeries (event : string) (payload : Payload) (hints : Hints)
| SettleInSeries (event : string) (payload : Payload) (arg : Arg)
| Sync (transform : Transform.t)
| PublicQuery (query : Query.t)
| Invoke (p : nat) (value : V)
| Removed (id : string).

(** [_requests] maps a request id to its [resolve] closure, identified by
    the index of its promise; a promise is pending ([None]) or resolved. *)
Record Source := mkSource {
  transformLog : list string;
  channel : option Channel;
  _requests : gmap string nat;
  _requestQueue : list Task;
  promises : list (option V);
  effects : list Effect
}.

Definition M (A : Type) : Type := Source -> Source * Result A.

Definition ret {A} (a : A) : M A := fun s => (s, Ok a).

Definition bind {A B} (m : M A) (k : A -> M B) : M B :=
  fun s =>
    match m s with
    | (s', Ok a) => k a s'
    | (s', Throw e) => (s', Throw e)
    end.

Definition seq {A B} (m : M A) (k : M B) : M B := bind m (fun _ => k).

Definition try_catch {A} (body : M A) (handler : Error -> M A) : M A :=
  fun s =>
    match body s with
    | (s', Ok a) => (s', Ok a)
    | (s', Throw e) => handler e s'
    end.

(** The caller of an [async] method: settled, or suspended on promise [p]
    with the rest of the method, [k]. *)
Inductive Async :=
| Fulfilled (a : Value)
| Rejected (e : Error)
| Awaiting (p : nat) (k : V -> Value).

Definition outcome (call : Async) (s : Source) : option (Result Value) :=
  match call with
  | Fulfilled a => Some (Ok a)
  | Rejected e => Some (Throw e)
  | Awaiting p k =>
      match promises s !! p with
      | Some (Some v) => Some (Ok (k v))
      | _ => None
      end
  end.

Definition emit (e : Effect) (s : Source) : Source :=
  mkSource (transformLog s) (channel s) (_requests s) (_requestQueue s)
           (promises s) (effects s ++ [e]).

Definition set_transformLog (log : list string) (s : Source) : Source :=
  mkSource log (channel s) (_requests s) (_requestQueue s)
           (promises s) (effects s).

Definition set_requests (r : gmap string nat) (s : Source) : Source :=
  mkSource (transformLog s) (channel s) r (_requestQueue s)
           (promises s) (effects s).

Definition set_requestQueue (q : list Task) (s : Source) : Source :=
  mkSource (transformLog s) (channel s) (_requests s) q
           (promises s) (effects s).

Definition set_promises (ps : list (option V)) (s : Source) : Source :=
  mkSource (transformLog s) (channel s) (_requests s) (_requestQueue s)
           ps (effects s).

(** Modelled from the spec: [channel.postMessage], as for the final
    variant. *)
Definition postMessage (message : Msg) : M unit :=
  fun s =>
    match channel s with
    | None => (s, Throw (TypeError "Cannot read property 'postMessage' of undefined"))
    | Some c =>
        if closed c
        then (s, Throw (GenericError "Cannot post message after channel has closed"))
        else (emit (PostMessage message) s, Ok tt)
    end.

(** Modelled from the spec: the inherited [transformed], as for the final
    variant. *)
Definition transformed (transforms : list Transform.t) : M unit :=
  fun s =>
    (emit (Transformed transforms)
          (set_transformLog (foldl log_append (transformLog s) transforms) s),
     Ok tt).

(** Modelled from the spec: [_requestQueue.push(task)]. *)
Definition requestQueue_push (task : Task) : M unit :=
  fun s => (set_requestQueue (_requestQueue s ++ [task]) s, Ok tt).

(** Modelled from the spec: [this.sync(transform)], recorded. *)
Definition sync (transform : Transform.t) : M unit :=
  fun s => (emit (Sync transform) s, Ok tt).

Definition fulfillInSeries
    (listeners : string -> Payload -> Hints -> Hints * option Error)
    (event : string) (payload : Payload) (hints : Hints) : M Hints :=
  fun s =>
    let s' := emit (FulfillInSeries event payload hints) s in
    match listeners event payload hints with
    | (hints', None) => (s', Ok hints')
    | (_, Some e) => (s', Throw e)
    end.

(** Modelled from the spec: [settleInSeries], which never rejects. *)
Definition settleInSeries (event : string) (payload : Payload) (arg : Arg)
  : M unit :=
  fun s => (emit (SettleInSeries event payload arg) s, Ok tt).

(** *** The object [_requests] and its prototype chain *)

(** The prototype of [_requests] is [Object.prototype] until an
    assignment under "__proto__" puts the assigned [resolve] closure, a
    function, in its place. *)
Definition replaced (s : Source) : bool :=
  bool_decide (is_Some (_requests s !! "__proto__")).

(** The names a function as prototype lets no heir be assigned under:
    [length] and [name] are read-only on it, [arguments] and [caller] have
    a setter that throws. *)
Definition read_only : list string :=
  ["length"; "name"; "arguments"; "caller"].

(** Whether [this._requests[id] = resolve] goes through: it does not when
    the name is one of [read_only], found on the function that became the
    prototype, and the object has no property of its own under it. *)
Definition assignable (id : string) (s : Source) : bool :=
  negb (replaced s
        && bool_decide (id ∈ read_only)
        && bool_decide (_requests s !! id = None)).

(** The members of [Object.prototype] and of a function and
    [Function.prototype]: the names a read of [_requests] can find
    something under without a property of its own. *)
Definition object_members : list string :=
  ["constructor"; "hasOwnProperty"; "isPrototypeOf"; "propertyIsEnumerable";
   "toLocaleString"; "toString"; "valueOf"; "__defineGetter__";
   "__defineSetter__"; "__lookupGetter__"; "__lookupSetter__"; "__proto__"].

Definition function_members : list string :=
  ["apply"; "arguments"; "bind"; "call"; "caller"; "length"; "name"].

Definition members : list string := object_members ++ function_members.

(** The methods of [Object.prototype] that return, called on [_requests]
    with one argument, whatever the prototype of the object. *)
Definition returning : list string :=
  ["hasOwnProperty"; "isPrototypeOf"; "propertyIsEnumerable"; "valueOf";
   "__lookupGetter__"; "__lookupSetter__"].

(** What the call [this._requests[name](value)] meets under a [name] the
    map does not bind. *)
Inductive Inherited :=
| NotAFunction   (* [undefined], a number, a string or an object *)
| Refuses        (* a method that throws a [TypeError] on this receiver
                    or argument, or an accessor that throws on the read *)
| Returns        (* a method that returns and changes nothing *)
| CallsToString  (* [toLocaleString], which calls [this.toString()] *)
| Compiles.      (* [Function], which compiles the text of its argument *)

Definition inherited (s : Source) (name : string) : Inherited :=
  if bool_decide (name ∈ returning) then Returns
  else if bool_decide (name = "toLocaleString") then CallsToString
  else if bool_decide (name = "constructor")
       then (if replaced s then Compiles else Returns)
  else if bool_decide (name = "toString")
       then (if replaced s then Refuses else Returns)
  else if bool_decide (name ∈ ["__defineGetter__"; "__defineSetter__"])
       then Refuses
  else if replaced s
          && bool_decide (name ∈ ["apply"; "arguments"; "bind"; "call"; "caller"])
       then Refuses
  else NotAFunction.

(** [this._requests[id] = resolve]: a property of the object or, for the
    id "__proto__", its new prototype; either is the binding of [id] in
    the map. *)
Definition register (id : string) (p : nat) (s : Source) : Source :=
  set_requests (<[id := p]> (_requests s)) s.

(** [new Promise(resolve => { this._requests[id] = resolve; })], where the
    assignment goes through. *)
Definition newPromise (id : string) (s : Source) : Source * nat :=
  let p := length (promises s) in
  (register id p (set_promises (promises s ++ [None]) s), p).

(** Calling a stored [resolve] closure with [value]. *)
Definition call_resolve (p : nat) (value : V) (s : Source) : Source :=
  let s' := emit (Invoke p value) s in
  match promises s' !! p with
  | Some None => set_promises (<[p := Some value]> (promises s')) s'
  | _ => s'
  end.

(** The method after its [await] on the post: the [new Promise] whose
    executor stores [resolve] under [id].  Where the assignment throws
    (the code is strict) the executor's [TypeError] rejects the promise,
    which holds no closure in the table and is not listed in
    [promises]. *)
Definition resume (id : string) (k : V -> Value) (s : Source)
  : Source * Async :=
  if assignable id s
  then let (s2, p) := newPromise id s in (s2, Awaiting p k)
  else (s, Rejected (TypeError "Cannot assign to read only property")).

(** [await this.channel.postMessage(message)], then [resume]: the whole
    call, with nothing handled in between.  The two sides of the [await]
    are [postMessage] and [resume]. *)
Definition request (message : Msg) (id : string) (k : V -> Value)
    (s : Source) : Source * Async :=
  match postMessage message s with
  | (s1, Throw e) => (s1, Rejected e)
  | (s1, Ok _) => resume id k s1
  end.

(** [this._requests[id](value)], written [expression] in the source.
    Under a name the map binds, the stored closure is called.  Under any
    other, the call goes to what the prototype chain answers: a
    [TypeError] where that is no function or a function that refuses; a
    return where it is a method that returns; for [toLocaleString] the
    call [this.toString()], which finds the closure stored under
    "toString" (called without argument, [undefined]) or else the
    [toString] of the chain; for [Function] the compilation of the text
    of [value], a [SyntaxError] unless [compiles value] (a realm whose
    policy forbids compiling strings is not considered). *)
Definition call_entry (expression : string) (undefined : V)
    (compiles : V -> bool) (id : string) (value : V) : M unit :=
  fun s =>
    match _requests s !! id with
    | Some p => (call_resolve p value s, Ok tt)
    | None =>
        match inherited s id with
        | NotAFunction => (s, Throw (TypeError (expression ++ " is not a function")))
        | Refuses => (s, Throw (TypeError (id ++ " called on an incompatible receiver")))
        | Returns => (s, Ok tt)
        | CallsToString =>
            match _requests s !! "toString" with
            | Some p => (call_resolve p undefined s, Ok tt)
            | None =>
                if replaced s
                then (s, Throw (TypeError "toString called on an incompatible receiver"))
                else (s, Ok tt)
            end
        | Compiles =>
            if compiles value then (s, Ok tt)
            else (s, Throw (GenericError "SyntaxError: Unexpected identifier"))
        end
    end.

(** [delete this._requests[id]]: the property of that name leaves the
    object, if there is one.  There is none under "__proto__", where the
    binding is the prototype of the object and stays. *)
Definition delete_entry (id : string) : M unit :=
  fun s =>
    if decide (id = "__proto__") then (s, Ok tt)
    else
      match _requests s !! id with
      | Some _ =>
          (emit (Removed id) (set_requests (delete id (_requests s)) s), Ok tt)
      | None => (s, Ok tt)
      end.

(** How many times the [resolve] closure of promise [p] was called. *)
Fixpoint invocations (p : nat) (es : list Effect) : nat :=
  match es with
  | [] => 0
  | Invoke q _ :: es' => (if decide (p = q) then 1 else 0) + invocations p es'
  | _ :: es' => invocations p es'
  end.

Fixpoint posted (es : list Effect) : list Msg :=
  match es with
  | [] => []
  | PostMessage m :: es' => m :: posted es'
  | _ :: es' => posted es'
  end.

End Node.

Arguments PostMessage {Msg V} message.
Arguments Transformed {Msg V} transforms.
Arguments FulfillInSeries {Msg V} event payload hints.
Arguments SettleInSeries {Msg V} event payload arg.
Arguments Sync {Msg V} transform.
Arguments PublicQuery {Msg V} query.
Arguments Invoke {Msg V} p value.
Arguments Removed {Msg V} id.
Arguments mkSource {Msg V}.
Arguments transformLog {Msg V} s.
Arguments channel {Msg V} s.
Arguments _requests {Msg V} s.
Arguments _requestQueue {Msg V} s.
Arguments promises {Msg V} s.
Arguments effects {Msg V} s.
Arguments ret {Msg V A} a.
Arguments bind {Msg V A B} m k.
Arguments seq {Msg V A B} m k.
Arguments try_catch {Msg V A} body handler.
Arguments Fulfilled {V} a.
Arguments Rejected {V} e.
Arguments Awaiting {V} p k.
Arguments outcome {Msg V} call s.
Arguments emit {Msg V} e s.
Arguments set_transformLog {Msg V} log s.
Arguments set_requests {Msg V} r s.
Arguments set_requestQueue {Msg V} q s.
Arguments set_promises {Msg V} ps s.
Arguments postMessage {Msg V} message.
Arguments transformed {Msg V} transforms.
Arguments requestQueue_push {Msg V} task.
Arguments sync {Msg V} transform.
Arguments fulfillInSeries {Msg V} listeners event payload hints.
Arguments settleInSeries {Msg V} event payload arg.
Arguments replaced {Msg V} s.
Arguments assignable {Msg V} id s.
Arguments inherited {Msg V} s name.
Arguments register {Msg V} id p s.
Arguments newPromise {Msg V} id s.
Arguments call_resolve {Msg V} p value s.
Arguments resume {Msg V} id k s.
Arguments request {Msg V} message id k s.
Arguments call_entry {Msg V} expression undefined compiles id value.
Arguments delete_entry {Msg V} id.
Arguments invocations {Msg V} p es.
Arguments posted {Msg V} es.
End Node.

(** *** The interim variant: one result message per request kind *)

Module Interim.

Inductive Message :=
| TransformMessage (transform : Transform.t)
| QueryMessage (query : Query.t)
| PullMessage (query : Query.t)
| UpdateMessage (transform : Transform.t)
| PushMessage (transform : Transform.t)
| QueryResultMessage (id : string) (result : Value)
| PullResultMessage (id : string)
| UpdateResultMessage (id : string) (result : Value)
| PushResultMessage (id : string)
| ErrorMessage (id : string) (error : Error).

(** [type Resolve = (result?) => void]: the closures are called with a
    result, [undefined] when the caller passes none. *)
Definition Source : Type := Node.Source Message Value.

Definition _push (transform : Transform.t) (s : Source)
  : Source * Node.Async Value :=
  if negb (contains (Node.transformLog s) (Transform.id transform))
  then Node.request (PushMessage transform) (Transform.id transform)
                    (fun _ => VArray []) s
  else (s, Node.Fulfilled (VArray [])).

Definition _pull (query : Query.t) (s : Source) : Source * Node.Async Value :=
  Node.request (PullMessage query) (Query.id query) (fun _ => VArray []) s.

Definition _query (query : Query.t) (s : Source) : Source * Node.Async Value :=
  Node.request (QueryMessage query) (Query.id query) (fun result => result) s.

Definition _sync (transform : Transform.t) : Node.M Message Value unit :=
  fun s =>
    if negb (contains (Node.transformLog s) (Transform.id transform))
    then Node.seq (Node.postMessage (TransformMessage transform))
                  (Node.transformed [transform]) s
    else (s, Ok tt).

Definition __proxyQuery__
    (listeners : string -> Payload -> Hints -> Hints * option Error)
    (query : Query.t) : Node.M Message Value Value :=
  Node.try_catch
    (Node.bind (Node.fulfillInSeries listeners "beforeQuery" (PQuery query) emptyHints)
       (fun hints =>
          let result := hints_data hints in
          Node.seq (Node.settleInSeries "proxyQuery" (PQuery query) (AValue result))
            (Node.seq (Node.postMessage (QueryResultMessage (Query.id query) result))
               (Node.ret result))))
    (fun error =>
       Node.seq (Node.settleInSeries "queryFail" (PQuery query) (AError error))
         (Node.seq (Node.postMessage (ErrorMessage (Query.id query) error))
            (Node.ret VUndefined))).

Definition __proxyPull__
    (listeners : string -> Payload -> Hints -> Hints * option Error)
    (query : Query.t) : Node.M Message Value Value :=
  Node.try_catch
    (Node.seq (Node.fulfillInSeries listeners "beforePull" (PQuery query) emptyHints)
       (Node.seq (Node.settleInSeries "proxyPull" (PQuery query) (AValue (VArray [])))
          (Node.seq (Node.postMessage (PullResultMessage (Query.id query)))
             (Node.ret (VArray [])))))
    (fun error =>
       Node.seq (Node.settleInSeries "pullFail" (PQuery query) (AError error))
         (Node.seq (Node.postMessage (ErrorMessage (Query.id query) error))
            (Node.ret VUndefined))).

(** Whether the text of a result is a function body: that of [undefined]
    and the empty text of an empty list are, the text of a record or of a
    list that holds records or transforms is not.  ([VData] stands for
    such a record or list.) *)
Definition compiles (result : Value) : bool :=
  match result with
  | VUndefined => true
  | VArray [] => true
  | VArray (_ :: _) => false
  | VData _ => false
  end.

(** [this._requests[requestId](result); delete this._requests[requestId]] *)
Definition resolveRequest (requestId : string) (result : Value)
  : Node.M Message Value unit :=
  Node.seq
    (Node.call_entry "this._requests[requestId]" VUndefined compiles
                     requestId result)
    (Node.delete_entry requestId).

(** The [switch] has no case for [update] and [push]. *)
Definition handleMessage (message : Message) : Node.M Message Value unit :=
  match message with
  | TransformMessage transform => Node.sync transform
  | QueryMessage query => Node.requestQueue_push (proxyQuery query)
  | PullMessage query => Node.requestQueue_push (proxyPull query)
  | QueryResultMessage id result => resolveRequest id result
  | UpdateResultMessage id result => resolveRequest id result
  | PullResultMessage id => resolveRequest id VUndefined
  | PushResultMessage id => resolveRequest id VUndefined
  | ErrorMessage id error => fun s => (s, Throw error)
  | UpdateMessage _ => Node.ret tt
  | PushMessage _ => Node.ret tt
  end.

(** The result messages, with the id and the result they carry. *)
Definition result_of (message : Message) : option (string * Value) :=
  match message with
  | QueryResultMessage id result => Some (id, result)
  | UpdateResultMessage id result => Some (id, result)
  | PullResultMessage id => Some (id, VUndefined)
  | PushResultMessage id => Some (id, VUndefined)
  | _ => None
  end.

End Interim.

(** *** The first draft: a single [result] message *)

Module Draft.

Inductive Message :=
| TransformMessage (transform : Transform.t)
| QueryMessage (query : Query.t)
| ResultMessage (query : Query.t) (hints : Hints).

(** The stored closures are called with the hints of a [result] message,
    or with nothing ([None], the [undefined] of a call without
    argument). *)
Definition Source : Type := Node.Source Message (option Hints).

(** Truthiness of a result: only [undefined] is falsy among them. *)
Definition truthy (v : Value) : bool :=
  match v with
  | VUndefined => false
  | _ => true
  end.

Definition _push (transform : Transform.t)
  : Node.M Message (option Hints) Value :=
  fun s =>
    if negb (contains (Node.transformLog s) (Transform.id transform))
    then Node.seq (Node.postMessage (TransformMessage transform))
           (Node.seq (Node.transformed [transform])
              (Node.ret (VArray [transform]))) s
    else (s, Ok (VArray [])).

Definition _pull (query : Query.t) (s : Source)
  : Source * Node.Async (option Hints) :=
  Node.request (QueryMessage query) (Query.id query) (fun _ => VArray []) s.

Definition _sync (transform : Transform.t)
  : Node.M Message (option Hints) unit :=
  fun s =>
    if negb (contains (Node.transformLog s) (Transform.id transform))
    then Node.seq (Node.postMessage (TransformMessage transform))
                  (Node.transformed [transform]) s
    else (s, Ok tt).

(** [_query(query, hints)]: [hints] may be [undefined]; the result is
    posted when [hints && hints.data] is truthy. *)
Definition _query (query : Query.t) (hints : option Hints)
  : Node.M Message (option Hints) Value :=
  match hints with
  | Some h =>
      if truthy (hints_data h)
      then Node.seq (Node.postMessage (ResultMessage query h))
                    (Node.ret (hints_data h))
      else Node.ret VUndefined
  | None => Node.ret VUndefined
  end.

(** Whether the text of the argument is a function body: that of
    [undefined] is, that of a hints object is not. *)
Definition compiles (hints : option Hints) : bool :=
  match hints with
  | None => true
  | Some _ => false
  end.

(** [this._requests[query.id](hints)]: the entry is called and kept. *)
Definition sendResult (query : Query.t) (hints : Hints)
  : Node.M Message (option Hints) unit :=
  Node.call_entry "this._requests[query.id]" None compiles
                  (Query.id query) (Some hints).

(** The listener [_activate] subscribes to the channel.  [this.query] is
    the public method of the base class, called without [await]:
    recorded. *)
Definition onMessage (message : Message)
  : Node.M Message (option Hints) unit :=
  match message with
  | TransformMessage transform => Node.sync transform
  | QueryMessage query => fun s => (Node.emit (Node.PublicQuery query) s, Ok tt)
  | ResultMessage query hints => sendResult query hints
  end.

End Draft.

(** An interim and a draft node on an open channel, nothing else. *)
Definition interimLive : Interim.Source :=
  Node.mkSource [] (Some (mkChannel "orbit" false)) ∅ [] [] [].

Definition draftLive : Draft.Source :=
  Node.mkSource [] (Some (mkChannel "orbit" false)) ∅ [] [] [].


(** * Properties *)

Lemma contains_true log id : contains log id = true <-> id ∈ log.
Proof. unfold contains. apply bool_decide_eq_true. Qed.

Lemma contains_false log id : contains log id = false <-> id ∉ log.
Proof. unfold contains. apply bool_decide_eq_false. Qed.

(** ** Idempotent replay in the inbound proxy *)

(** C1, as amended: an inbound push or update whose transform id is in the
    Transform Log returns an empty list and leaves the source as it was: no
    message is posted and no listener chain runs. *)
Theorem proxy_write_replay_is_silent
    (listeners : string -> Payload -> Hints -> Hints * option Error)
    (transform : Transform.t) (s : Source) :
  Transform.id transform ∈ transformLog s ->
  __proxyPush__ listeners transform s = (s, Ok (VArray [])) /\
  __proxyUpdate__ listeners transform s = (s, Ok (VArray [])).
Proof.
  intros Hin. apply contains_true in Hin.
  unfold __proxyPush__, __proxyUpdate__. rewrite Hin. split; reflexivity.
Qed.

Lemma proxy_write_replay_is_silent_witness :
  Transform.id t1 ∈ transformLog seen /\
  __proxyPush__ noListeners t1 seen = (seen, Ok (VArray [])) /\
  __proxyUpdate__ noListeners t1 seen = (seen, Ok (VArray [])).
Proof.
  assert (H : Transform.id t1 ∈ transformLog seen) by (apply contains_true; reflexivity).
  split; [exact H | exact (proxy_write_replay_is_silent noListeners t1 seen H)].
Defined.

(** C1, as stated, fails: on a live source whose log holds "t1", the proxy
    of an inbound push of "t1" posts no [success] message at all. *)
Lemma proxy_write_replay_posts_no_success :
  Transform.id t1 ∈ transformLog seen /\
  ~ (exists result,
        SuccessMessage (Transform.id t1) result
          ∈ posted (effects (fst (__proxyPush__ noListeners t1 seen)))) /\
  ~ (exists result,
        SuccessMessage (Transform.id t1) result
          ∈ posted (effects (fst (__proxyUpdate__ noListeners t1 seen)))).
Proof.
  split; [apply contains_true; reflexivity |].
  split; intros [result H]; vm_compute in H; inversion H.
Qed.

(** ** Replies without a Correlation Entry *)

(** C2, as amended: a [success] or [error] message whose id has no entry
    makes the router raise a [TypeError]; the source, and so every pending
    entry and promise, is left as it was and no continuation is called. *)
Theorem reply_without_entry_raises (s : Source) (id : string)
    (result : Value) (error : Error) :
  _requests s !! id = None ->
  handleMessage (SuccessMessage id result) s
    = (s, Throw (TypeError "Cannot destructure property of undefined")) /\
  handleMessage (ErrorMessage id error) s
    = (s, Throw (TypeError "Cannot destructure property of undefined")).
Proof.
  intros Hnone. cbn.
  unfold resolveRequest, rejectRequest, bind, lookupRequest.
  rewrite Hnone. split; reflexivity.
Qed.

Lemma reply_without_entry_raises_witness :
  _requests live !! "t9" = None /\
  handleMessage (SuccessMessage "t9" VUndefined) live
    = (live, Throw (TypeError "Cannot destructure property of undefined")) /\
  handleMessage (ErrorMessage "t9" (GenericError "lost")) live
    = (live, Throw (TypeError "Cannot destructure property of undefined")).
Proof.
  assert (H : _requests live !! "t9" = None) by reflexivity.
  split; [exact H |].
  exact (reply_without_entry_raises live "t9" VUndefined (GenericError "lost") H).
Defined.

(** C2, as stated, fails: a [success] message for an id with no entry
    does raise. *)
Lemma dangling_success_raises :
  _requests live !! "t9" = None /\
  snd (handleMessage (SuccessMessage "t9" VUndefined) live) <> Ok tt /\
  snd (handleMessage (ErrorMessage "t9" (GenericError "lost")) live) <> Ok tt.
Proof. split; [reflexivity |]. split; vm_compute; discriminate. Qed.

(** ** Deactivation *)

(** C3, as amended: once the source has been activated, [deactivate]
    returns without throwing, also when the channel is closed already, and
    leaves the channel closed; on a source that was never activated there
    is no channel object and it fails with a [TypeError], before the
    inherited deactivation runs. *)
Theorem deactivate_needs_a_channel (s : Source) :
  match channel s with
  | None =>
      deactivate s = (s, Throw (TypeError "Cannot read property 'close' of undefined"))
  | Some c =>
      snd (deactivate s) = Ok tt /\
      channel (fst (deactivate s)) = Some (mkChannel (channelName c) true) /\
      effects (fst (deactivate s)) = effects s ++ [Close; SuperDeactivate] /\
      snd (deactivate (fst (deactivate s))) = Ok tt
  end.
Proof.
  unfold deactivate, bind, channel_close.
  destruct (channel s) as [c|] eqn:Hc; cbn; [| reflexivity].
  rewrite <- app_assoc. repeat split; reflexivity.
Qed.

(** C3, as stated, fails: [deactivate] on a source that was constructed and
    never activated throws. *)
Lemma deactivate_before_activate_throws :
  channel fresh = None /\ snd (deactivate fresh) <> Ok tt.
Proof. split; [reflexivity | vm_compute; discriminate]. Qed.

(** ** The outbound dispatcher *)

(** C4: [_sync] of a transform whose id is in the Transform Log changes
    nothing and posts nothing; of a transform not yet in the log, on an
    open channel, it posts the [sync] message, then applies the transform
    locally, and returns normally. *)
Theorem replicate_skips_logged_transforms (transform : Transform.t) (s : Source) :
  (Transform.id transform ∈ transformLog s ->
   _sync transform s = (s, Ok tt)) /\
  (Transform.id transform ∉ transformLog s ->
   forall c, channel s = Some c -> closed c = false ->
   snd (_sync transform s) = Ok tt /\
   effects (fst (_sync transform s))
     = effects s ++ [PostMessage (SyncMessage transform); Transformed [transform]] /\
   transformLog (fst (_sync transform s))
     = transformLog s ++ [Transform.id transform]).
Proof.
  split.
  - intros Hin. apply contains_true in Hin. unfold _sync. rewrite Hin. reflexivity.
  - intros Hout c Hc Hopen. apply contains_false in Hout.
    unfold _sync, bind, postMessage, transformed. rewrite Hout, Hc, Hopen. cbn.
    unfold log_append. rewrite Hout, <- app_assoc. repeat split; reflexivity.
Qed.

Lemma replicate_skips_logged_transforms_witness :
  _sync t1 seen = (seen, Ok tt) /\
  effects (fst (_sync t1 live))
    = effects live ++ [PostMessage (SyncMessage t1); Transformed [t1]].
Proof.
  split.
  - apply (proj1 (replicate_skips_logged_transforms t1 seen)).
    apply contains_true. reflexivity.
  - apply (proj2 (replicate_skips_logged_transforms t1 live)
             ltac:(apply contains_false; reflexivity)
             (mkChannel "orbit" false) eq_refl eq_refl).
Defined.

(** [delete] never raises and touches nothing but the table and the
    record of what left it. *)
Lemma deleteRequest_frame (id : string) (s : Source) :
  snd (deleteRequest id s) = Ok tt /\
  promises (fst (deleteRequest id s)) = promises s /\
  transformLog (fst (deleteRequest id s)) = transformLog s /\
  channel (fst (deleteRequest id s)) = channel s /\
  _requestQueue (fst (deleteRequest id s)) = _requestQueue s.
Proof.
  unfold deleteRequest. case_decide; [repeat split |].
  destruct (_requests s !! id); repeat split.
Qed.

(** The router, on a live entry: the [delete], then the call of the
    continuation. *)
Lemma reply_routed (id : string) (r : Resolver) (o : Settlement) (s : Source) :
  _requests s !! id = Some r ->
  handleMessage (reply id o) s = (routed id r o s, Ok tt).
Proof.
  unfold routed.
  intros Hr. destruct (deleteRequest_frame id s) as (Hok & _).
  destruct o; cbn;
    unfold resolveRequest, rejectRequest, bind, lookupRequest; rewrite Hr;
    destruct (deleteRequest id s) as [s' res]; cbn in Hok; subst res;
    reflexivity.
Qed.

(** Routing a reply to a live entry settles the promise of that entry. *)
Lemma routed_reply_settles (s : Source) (id : string) (r : Resolver)
    (o : Settlement) :
  _requests s !! id = Some r ->
  promises s !! promise r = Some Pending ->
  promises (fst (handleMessage (reply id o) s)) !! promise r = Some (Settled o).
Proof.
  intros Hr Hp.
  assert (Hlt : promise r < length (promises s)) by (eapply lookup_lt_Some; eauto).
  rewrite (reply_routed id r o s Hr). cbn [fst]. unfold routed.
  destruct (deleteRequest_frame id s) as (_ & Hd & _).
  destruct (deleteRequest id s) as [s' res]. cbn [fst] in *.
  unfold invoke. cbn. rewrite Hd, Hp. cbn.
  apply list_lookup_insert_eq; exact Hlt.
Qed.

Lemma request_awaits_reply (message : Message) (id : string)
    (k : Settlement -> Result Value) (kv : Value -> Value) (s : Source)
    (c : Channel) :
  channel s = Some c -> closed c = false ->
  (forall result, k (Resolved result) = Ok (kv result)) ->
  (forall error, k (Failed error) = Throw error) ->
  awaits_reply (request message id k) message id kv s.
Proof.
  intros Hc Hopen Hres Hrej.
  exists (register id (mkResolver (length (promises s)))
            (set_promises (promises s ++ [Pending]) (emit (PostMessage message) s))),
    (length (promises s)), k.
  assert (Hnew : (promises s ++ [Pending]) !! length (promises s) = Some Pending).
  { rewrite lookup_app_r by lia. rewrite Nat.sub_diag. reflexivity. }
  split; [unfold request, postMessage, newPromise; rewrite Hc, Hopen; reflexivity |].
  split; [reflexivity |]. split; [reflexivity |].
  split; [apply lookup_ge_None; lia |].
  split; [exact Hnew |].
  split; [intros s2 Hpending; cbn; rewrite Hpending; reflexivity |].
  intros s2 Hentry Hpending. split.
  - intros result.
    pose proof (routed_reply_settles s2 id _ (Resolved result) Hentry Hpending) as H.
    cbn [reply promise] in H. unfold outcome. rewrite H, Hres. reflexivity.
  - intros error.
    pose proof (routed_reply_settles s2 id _ (Failed error) Hentry Hpending) as H.
    cbn [reply promise] in H. unfold outcome. rewrite H, Hrej. reflexivity.
Qed.

(** C5: [_push] and [_update] of a transform whose id is in the Transform
    Log return at once with an empty result ([[]] and [undefined]) and
    post nothing.  Otherwise, on an open channel, they post the [push] or
    [update] message, register a fresh pending promise under the
    transform's id and leave the caller suspended on it; a [success] reply
    for that id makes [_update] resolve with the result the reply carries
    and [_push] with the empty list, and an [error] reply makes both fail
    with the carried error. *)
Theorem forward_write_awaits_reply (transform : Transform.t) (s : Source) :
  (Transform.id transform ∈ transformLog s ->
   _push transform s = (s, Fulfilled (VArray [])) /\
   _update transform s = (s, Fulfilled VUndefined)) /\
  (Transform.id transform ∉ transformLog s ->
   forall c, channel s = Some c -> closed c = false ->
   awaits_reply (_push transform) (PushMessage transform)
                (Transform.id transform) (fun _ => VArray []) s /\
   awaits_reply (_update transform) (UpdateMessage transform)
                (Transform.id transform) (fun result => result) s).
Proof.
  split.
  - intros Hin. apply contains_true in Hin. unfold _push, _update.
    rewrite Hin. split; reflexivity.
  - intros Hout c Hc Hopen. apply contains_false in Hout.
    split.
    + pose proof (request_awaits_reply (PushMessage transform) (Transform.id transform)
                    (await_return (VArray [])) (fun _ => VArray []) s c Hc Hopen
                    (fun _ => eq_refl) (fun _ => eq_refl)) as H.
      unfold awaits_reply in *. unfold _push. rewrite Hout. exact H.
    + pose proof (request_awaits_reply (UpdateMessage transform) (Transform.id transform)
                    return_promise (fun result => result) s c Hc Hopen
                    (fun _ => eq_refl) (fun _ => eq_refl)) as H.
      unfold awaits_reply in *. unfold _update. rewrite Hout. exact H.
Qed.

Lemma forward_write_awaits_reply_witness :
  _push t1 seen = (seen, Fulfilled (VArray [])) /\
  _update t1 seen = (seen, Fulfilled VUndefined) /\
  awaits_reply (_push t1) (PushMessage t1) "t1" (fun _ => VArray []) live /\
  awaits_reply (_update t1) (UpdateMessage t1) "t1" (fun result => result) live.
Proof.
  split; [| split].
  - apply (proj1 (forward_write_awaits_reply t1 seen)).
    apply contains_true. reflexivity.
  - apply (proj1 (forward_write_awaits_reply t1 seen)).
    apply contains_true. reflexivity.
  - apply (proj2 (forward_write_awaits_reply t1 live)
             ltac:(apply contains_false; reflexivity)
             (mkChannel "orbit" false) eq_refl eq_refl).
Defined.

(** C6, as amended: [_pull] posts the [pull] message whatever the Transform
    Log holds, registers a fresh pending promise under the query's id and
    leaves the caller suspended on it; a [success] reply for that id makes
    it resolve with the empty list, whatever result the reply carries, and
    an [error] reply makes it fail with the carried error. *)
Theorem forward_read_resolves_empty (query : Query.t) (s : Source) (c : Channel) :
  channel s = Some c -> closed c = false ->
  awaits_reply (_pull query) (PullMessage query) (Query.id query)
               (fun _ => VArray []) s /\
  forall log,
    _pull query (set_transformLog log s)
    = (set_transformLog log (fst (_pull query s)), snd (_pull query s)).
Proof.
  intros Hc Hopen. split.
  - exact (request_awaits_reply (PullMessage query) (Query.id query)
             (await_return (VArray [])) (fun _ => VArray []) s c Hc Hopen
             (fun _ => eq_refl) (fun _ => eq_refl)).
  - intros log. unfold _pull, request, postMessage. cbn.
    rewrite Hc, Hopen. reflexivity.
Qed.

Lemma forward_read_resolves_empty_witness :
  awaits_reply (_pull q1) (PullMessage q1) "q1" (fun _ => VArray []) live /\
  _pull q1 (set_transformLog ["q1"] live)
  = (set_transformLog ["q1"] (fst (_pull q1 live)), snd (_pull q1 live)).
Proof.
  destruct (forward_read_resolves_empty q1 live (mkChannel "orbit" false)
              eq_refl eq_refl) as [H1 H2].
  split; [exact H1 | exact (H2 ["q1"])].
Defined.

(** C6, as stated, fails: the caller of [_pull] whose reply carries the
    result "rows" resolves with the empty list, not with "rows". *)
Lemma pull_discards_the_reply_result :
  let s := fst (_pull q1 live) in
  let call := snd (_pull q1 live) in
  let s' := fst (handleMessage (SuccessMessage "q1" (VData "rows")) s) in
  outcome call s = None /\
  outcome call s' = Some (Ok (VArray [])) /\
  outcome call s' <> Some (Ok (VData "rows")).
Proof. vm_compute. repeat split; discriminate. Qed.

(** ** Failures and successes of a proxied write *)

Lemma postMessage_fails (message : Message) (s : Source) (e : Error) :
  post_failure s = Some e -> postMessage message s = (s, Throw e).
Proof.
  unfold post_failure, postMessage.
  destruct (channel s) as [c |]; [destruct (closed c) |]; congruence.
Qed.




(** C10: on an open channel, a proxied push or update whose before-write
    chain fulfils runs the two listener chains and posts the [success]
    reply, and nothing else: the transform is not applied locally and the
    Transform Log is left as it was, so that proxying the same transform
    again runs the listener chains again instead of returning early. *)
Theorem proxy_write_success_leaves_the_log
    (listeners : string -> Payload -> Hints -> Hints * option Error)
    (transform : Transform.t) (s : Source) (c : Channel) :
  channel s = Some c -> closed c = false ->
  Transform.id transform ∉ transformLog s ->
  (forall hints,
      listeners "beforePush" (PTransform transform) emptyHints = (hints, None) ->
      let chain :=
        [FulfillInSeries "beforePush" (PTransform transform) emptyHints;
         SettleInSeries "proxyPush" (PTransform transform) (AValue (VArray []));
         PostMessage (SuccessMessage (Transform.id transform) VUndefined)] in
      let s' := fst (__proxyPush__ listeners transform s) in
      snd (__proxyPush__ listeners transform s) = Ok (VArray []) /\
      effects s' = effects s ++ chain /\
      transformLog s' = transformLog s /\
      effects (fst (__proxyPush__ listeners transform s')) = effects s' ++ chain) /\
  (forall hints,
      listeners "beforeUpdate" (PTransform transform) emptyHints = (hints, None) ->
      let chain :=
        [FulfillInSeries "beforeUpdate" (PTransform transform) emptyHints;
         SettleInSeries "proxyUpdate" (PTransform transform) (AValue (hints_data hints));
         PostMessage (SuccessMessage (Transform.id transform) (hints_data hints))] in
      let s' := fst (__proxyUpdate__ listeners transform s) in
      snd (__proxyUpdate__ listeners transform s) = Ok (hints_data hints) /\
      effects s' = effects s ++ chain /\
      transformLog s' = transformLog s /\
      effects (fst (__proxyUpdate__ listeners transform s')) = effects s' ++ chain).
Proof.
  intros Hc Hopen Hout. apply contains_false in Hout.
  split.
  - intros hints Hl.
    assert (Hrun : forall s0, channel s0 = Some c ->
               contains (transformLog s0) (Transform.id transform) = false ->
               __proxyPush__ listeners transform s0
               = (emit (PostMessage (SuccessMessage (Transform.id transform) VUndefined))
                    (emit (SettleInSeries "proxyPush" (PTransform transform) (AValue (VArray [])))
                       (emit (FulfillInSeries "beforePush" (PTransform transform) emptyHints) s0)),
                  Ok (VArray []))).
    { intros s0 Hc0 Hout0.
      unfold __proxyPush__, try_catch, bind, fulfillInSeries, settleInSeries,
        postMessage, ret.
      rewrite Hout0, Hl. cbn. rewrite Hc0, Hopen. reflexivity. }
    cbv zeta. rewrite (Hrun s Hc Hout). cbn [fst snd].
    rewrite Hrun by (cbn; assumption). cbn.
    rewrite <- !app_assoc. repeat split; reflexivity.
  - intros hints Hl.
    assert (Hrun : forall s0, channel s0 = Some c ->
               contains (transformLog s0) (Transform.id transform) = false ->
               __proxyUpdate__ listeners transform s0
               = (emit (PostMessage (SuccessMessage (Transform.id transform) (hints_data hints)))
                    (emit (SettleInSeries "proxyUpdate" (PTransform transform) (AValue (hints_data hints)))
                       (emit (FulfillInSeries "beforeUpdate" (PTransform transform) emptyHints) s0)),
                  Ok (hints_data hints))).
    { intros s0 Hc0 Hout0.
      unfold __proxyUpdate__, try_catch, bind, fulfillInSeries, settleInSeries,
        postMessage, ret.
      rewrite Hout0, Hl. cbn. rewrite Hc0, Hopen. reflexivity. }
    cbv zeta. rewrite (Hrun s Hc Hout). cbn [fst snd].
    rewrite Hrun by (cbn; assumption). cbn.
    rewrite <- !app_assoc. repeat split; reflexivity.
Qed.

Lemma proxy_write_success_leaves_the_log_witness :
  snd (__proxyUpdate__ cachingListeners t1 live) = Ok (VData "cached") /\
  transformLog (fst (__proxyUpdate__ cachingListeners t1 live)) = transformLog live /\
  posted (effects (fst (__proxyUpdate__ cachingListeners t1
                          (fst (__proxyUpdate__ cachingListeners t1 live)))))
  = [SuccessMessage "t1" (VData "cached"); SuccessMessage "t1" (VData "cached")].
Proof.
  destruct (proj2 (proxy_write_success_leaves_the_log cachingListeners t1 live
                     (mkChannel "orbit" false) eq_refl eq_refl
                     ltac:(apply contains_false; reflexivity))
                  (mkHints (Some (VData "cached"))) eq_refl)
    as (H1 & H2 & H3 & H4).
  split; [exact H1 |]. split; [exact H3 |].
  rewrite H4, H2. reflexivity.
Defined.

(** ** The Correlation Table along the runs of a node *)

Lemma invocations_app (p : nat) (es es' : list Effect) :
  invocations p (es ++ es') = invocations p es + invocations p es'.
Proof.
  induction es as [| e es IH]; [reflexivity |].
  destruct e; cbn; rewrite ?IH; lia.
Qed.

Lemma same_table_refl (s : Source) : same_table s s.
Proof. repeat split. Qed.

Lemma same_table_trans (s1 s2 s3 : Source) :
  same_table s1 s2 -> same_table s2 s3 -> same_table s1 s3.
Proof.
  intros (Hr & Hp & Hi) (Hr' & Hp' & Hi').
  split; [congruence | split; [congruence |]].
  intros p. rewrite Hi', Hi. reflexivity.
Qed.

Lemma same_table_emit (e : Effect) (s : Source) :
  quiet e -> same_table s (emit e s).
Proof.
  intros He. repeat split. intros p. cbn. rewrite invocations_app.
  destruct e; cbn in *; first [lia | contradiction].
Qed.

Lemma keeps_ret {A} (a : A) : keeps_table (ret a).
Proof. intros s. apply same_table_refl. Qed.

Lemma keeps_bind {A B} (m : M A) (k : A -> M B) :
  keeps_table m -> (forall a, keeps_table (k a)) -> keeps_table (bind m k).
Proof.
  intros Hm Hk s. unfold bind. specialize (Hm s).
  destruct (m s) as [s' [a | e]]; cbn in *; [| exact Hm].
  eapply same_table_trans; [exact Hm | apply Hk].
Qed.

Lemma keeps_try_catch {A} (body : M A) (handler : Error -> M A) :
  keeps_table body -> (forall e, keeps_table (handler e)) ->
  keeps_table (try_catch body handler).
Proof.
  intros Hm Hk s. unfold try_catch. specialize (Hm s).
  destruct (body s) as [s' [a | e]]; cbn in *; [exact Hm |].
  eapply same_table_trans; [exact Hm | apply Hk].
Qed.

Lemma keeps_postMessage (message : Message) : keeps_table (postMessage message).
Proof.
  intros s. unfold postMessage.
  destruct (channel s) as [c |]; [| apply same_table_refl].
  destruct (closed c); [apply same_table_refl |].
  apply same_table_emit. exact I.
Qed.

Lemma keeps_transformed (transforms : list Transform.t) :
  keeps_table (transformed transforms).
Proof.
  intros s. unfold transformed. cbn [fst].
  apply (same_table_emit (Transformed transforms)
           (set_transformLog (foldl log_append (transformLog s) transforms) s) I).
Qed.

Lemma keeps_settleInSeries (event : string) (payload : Payload) (arg : Arg) :
  keeps_table (settleInSeries event payload arg).
Proof. intros s. apply same_table_emit. exact I. Qed.

Lemma keeps_fulfillInSeries listeners (event : string) (payload : Payload)
    (hints : Hints) :
  keeps_table (fulfillInSeries listeners event payload hints).
Proof.
  intros s. unfold fulfillInSeries.
  destruct (listeners event payload hints) as [h [e |]]; cbn [fst];
    apply same_table_emit; exact I.
Qed.

Create HintDb keeps.
#[local] Hint Resolve keeps_ret keeps_postMessage keeps_transformed
  keeps_settleInSeries keeps_fulfillInSeries : keeps.

Ltac keeps_steps :=
  repeat first
    [ solve [auto with keeps]
    | apply keeps_try_catch
    | apply keeps_bind
    | intro ].

Lemma keeps_perform listeners (task : Task) : keeps_table (perform listeners task).
Proof.
  destruct task as [query | query | transform | transform]; cbn.
  - unfold __proxyQuery__. keeps_steps.
  - unfold __proxyPull__. keeps_steps.
  - intros s. unfold __proxyUpdate__.
    destruct (contains _ _); [apply same_table_refl |].
    revert s. keeps_steps.
  - intros s. unfold __proxyPush__.
    destruct (contains _ _); [apply same_table_refl |].
    revert s. keeps_steps.
Qed.

Lemma keeps_processQueue listeners : keeps_table (processQueue listeners).
Proof.
  intros s. unfold processQueue.
  destruct (_requestQueue s) as [| task rest]; [apply same_table_refl |].
  pose proof (keeps_perform listeners task s) as H.
  destruct (perform listeners task s) as [s' r]. exact H.
Qed.

Lemma keeps__sync (transform : Transform.t) : keeps_table (_sync transform).
Proof.
  intros s. unfold _sync.
  destruct (negb _); [| apply same_table_refl].
  revert s. keeps_steps.
Qed.

Lemma keeps_deactivate : keeps_table deactivate.
Proof.
  unfold deactivate. apply keeps_bind.
  - intros s. unfold channel_close.
    destruct (channel s) as [c |]; [| apply same_table_refl].
    apply (same_table_emit Close s I).
  - intros _ s. apply same_table_emit. exact I.
Qed.

Lemma keeps__activate : keeps_table _activate.
Proof. intros s. apply (same_table_emit SuperActivate s I). Qed.

Lemma consistent_same_table (s s' : Source) :
  same_table s s' -> consistent s -> consistent s'.
Proof.
  intros (Hr & Hp & Hi) [H1 H2 H3 H4]. split.
  - intros id r. rewrite Hr, Hp. apply H1.
  - intros id1 id2 r1 r2. rewrite Hr. apply H2.
  - intros p. rewrite Hi, Hp. apply H3.
  - rewrite Hr. exact H4.
Qed.

Lemma consistent_constructor (settings : BroadcastChannelSourceSettings) :
  consistent (constructor settings).
Proof.
  split; cbn.
  - intros id r H. rewrite lookup_empty in H. discriminate.
  - intros id1 id2 r1 r2 H. rewrite lookup_empty in H. discriminate.
  - reflexivity.
  - apply lookup_empty.
Qed.

Lemma consistent_resumed (id : string) (s : Source) :
  id <> "__proto__" -> consistent s -> consistent (resumed id s).
Proof.
  intros Hid [H1 H2 H3 H4]. split; cbn.
  - intros id' r. rewrite lookup_insert. case_decide as Hid'.
    + intros [= <-]. cbn. rewrite lookup_app_r by lia.
      rewrite Nat.sub_diag. reflexivity.
    + intros Hr. apply H1 in Hr. rewrite lookup_app_l; [exact Hr |].
      eapply lookup_lt_Some. exact Hr.
  - intros id1 id2 r1 r2. rewrite !lookup_insert.
    case_decide as Hid1; case_decide as Hid2; subst.
    + reflexivity.
    + intros [= <-] Hr2 Heq. cbn in Heq.
      apply H1, lookup_lt_Some in Hr2. lia.
    + intros Hr1 [= <-] Heq. cbn in Heq.
      apply H1, lookup_lt_Some in Hr1. lia.
    + apply H2.
  - intros p. rewrite H3.
    destruct (decide (p < length (promises s))) as [Hlt | Hge].
    + rewrite lookup_app_l by exact Hlt. reflexivity.
    + rewrite (lookup_ge_None_2 (promises s) p) by lia.
      destruct (decide (p = length (promises s))) as [-> | Hne].
      * rewrite lookup_app_r by lia. rewrite Nat.sub_diag. reflexivity.
      * rewrite lookup_ge_None_2; [reflexivity |]. rewrite length_app. cbn. lia.
  - rewrite lookup_insert_ne by exact Hid. exact H4.
Qed.

Lemma consistent_registered (message : Message) (id : string) (s : Source) :
  id <> "__proto__" -> consistent s -> consistent (registered message id s).
Proof.
  intros Hid Hs.
  apply (consistent_resumed id (emit (PostMessage message) s) Hid).
  apply (consistent_same_table s); [| exact Hs].
  apply same_table_emit. exact I.
Qed.

Lemma routed_fields (id : string) (r : Resolver) (o : Settlement) (s : Source) :
  id <> "__proto__" ->
  _requests s !! id = Some r ->
  promises s !! promise r = Some Pending ->
  _requests (routed id r o s) = delete id (_requests s) /\
  promises (routed id r o s) = <[promise r := Settled o]> (promises s) /\
  effects (routed id r o s) = effects s ++ [Removed id; Invoke (promise r) o].
Proof.
  intros Hid Hr Hp. unfold routed, deleteRequest.
  rewrite decide_False by exact Hid. rewrite Hr. unfold invoke. cbn.
  rewrite Hp. cbn. rewrite <- app_assoc. repeat split.
Qed.

(** Under "__proto__" the [delete] removes nothing: the entry stays. *)
Lemma routed_proto (r : Resolver) (o : Settlement) (s : Source) :
  routed "__proto__" r o s = invoke r o s.
Proof. reflexivity. Qed.


Lemma consistent_routed (id : string) (r : Resolver) (o : Settlement) (s : Source) :
  consistent s -> _requests s !! id = Some r -> consistent (routed id r o s).
Proof.
  intros [H1 H2 H3 H4] Hr.
  assert (Hid : id <> "__proto__") by (intros ->; congruence).
  pose proof (H1 _ _ Hr) as Hp.
  destruct (routed_fields id r o s Hid Hr Hp) as (Er & Ep & Ee).
  split; rewrite ?Er, ?Ep, ?Ee.
  - intros id' r'. rewrite lookup_delete. case_decide as Hid'; [discriminate |].
    intros Hr'. rewrite list_lookup_insert_ne; [apply (H1 _ _ Hr') |].
    intros Heq. apply Hid'. exact (H2 _ _ _ _ Hr Hr' Heq).
  - intros id1 id2 r1 r2. rewrite !lookup_delete.
    repeat case_decide; try discriminate. apply H2.
  - intros p. rewrite invocations_app, H3. cbn.
    destruct (decide (p = promise r)) as [-> | Hne].
    + rewrite Hp. rewrite list_lookup_insert_eq; [reflexivity |].
      eapply lookup_lt_Some. exact Hp.
    + rewrite list_lookup_insert_ne by congruence. lia.
  - rewrite lookup_delete_ne by congruence. exact H4.
Qed.

Lemma request_cases (message : Message) (id : string)
    (k : Settlement -> Result Value) (s : Source) :
  fst (request message id k s) = s \/
  fst (request message id k s) = registered message id s.
Proof.
  unfold request, postMessage, resume, newPromise.
  destruct (channel s) as [c |]; [| left; reflexivity].
  destruct (closed c); [left | right]; reflexivity.
Qed.

Lemma reply_dropped (id : string) (o : Settlement) (s : Source) :
  _requests s !! id = None ->
  fst (handleMessage (reply id o) s) = s.
Proof.
  intros Hr. destruct o; cbn;
    unfold resolveRequest, rejectRequest, bind, lookupRequest; rewrite Hr;
    reflexivity.
Qed.

(** Every step of a node leaves the table alone, registers one request
    (with its post, or at its resumption), or routes one reply to its live
    entry. *)
Lemma step_cases listeners (op : Op) (s : Source) :
  same_table s (step listeners op s) \/
  (exists message id,
      request_of op = Some (message, id) /\
      step listeners op s = registered message id s) \/
  (exists id r o,
      op = Deliver (reply id o) /\
      _requests s !! id = Some r /\
      step listeners op s = routed id r o s) \/
  (exists id,
      op = ResumeRequest id /\
      step listeners op s = resumed id s).
Proof.
  destruct op as [| | transform | transform | query | query | transform
                 | message | | message | id]; cbn [step].
  - left. apply keeps__activate.
  - left. apply keeps_deactivate.
  - unfold _push. destruct (negb _); [| left; apply same_table_refl].
    destruct (request_cases (PushMessage transform) (Transform.id transform)
                (await_return (VArray [])) s) as [-> | ->];
      [left; apply same_table_refl | right; left; eauto].
  - unfold _update. destruct (negb _); [| left; apply same_table_refl].
    destruct (request_cases (UpdateMessage transform) (Transform.id transform)
                return_promise s) as [-> | ->];
      [left; apply same_table_refl | right; left; eauto].
  - unfold _pull.
    destruct (request_cases (PullMessage query) (Query.id query)
                (await_return (VArray [])) s) as [-> | ->];
      [left; apply same_table_refl | right; left; eauto].
  - unfold _query.
    destruct (request_cases (QueryMessage query) (Query.id query)
                return_promise s) as [-> | ->];
      [left; apply same_table_refl | right; left; eauto].
  - left. apply keeps__sync.
  - assert (Hreply : forall id o, message = reply id o ->
              same_table s (fst (handleMessage message s)) \/
              (exists message0 id0,
                  request_of (Deliver message) = Some (message0, id0) /\
                  fst (handleMessage message s) = registered message0 id0 s) \/
              (exists id1 r o1,
                  Deliver message = Deliver (reply id1 o1) /\
                  _requests s !! id1 = Some r /\
                  fst (handleMessage message s) = routed id1 r o1 s) \/
              (exists id0,
                  Deliver message = ResumeRequest id0 /\
                  fst (handleMessage message s) = resumed id0 s)).
    { intros id o ->. destruct (_requests s !! id) as [r |] eqn:Hr.
      - right; right; left. exists id, r, o.
        rewrite (reply_routed id r o s Hr). eauto.
      - left. rewrite (reply_dropped id o s Hr). apply same_table_refl. }
    destruct message as [transform | query | query | transform | transform
                        | id result | id error].
    + left. apply (same_table_emit (Sync transform) s I).
    + left. repeat split.
    + left. repeat split.
    + left. repeat split.
    + left. repeat split.
    + apply (Hreply id (Resolved result) eq_refl).
    + apply (Hreply id (Failed error) eq_refl).
  - left. apply keeps_processQueue.
  - left. apply keeps_postMessage.
  - right; right; right. exists id. split; reflexivity.
Qed.

Lemma consistent_step listeners (op : Op) (s : Source) :
  registers op <> Some "__proto__" ->
  consistent s -> consistent (step listeners op s).
Proof.
  intros Hplain Hs.
  destruct (step_cases listeners op s)
    as [Hsame | [(message & id & Hop & ->) | [(id & r & o & _ & Hr & ->)
       | (id & -> & ->)]]].
  - eapply consistent_same_table; eauto.
  - apply consistent_registered; [| exact Hs].
    intros ->. apply Hplain.
    destruct op; cbn in Hop; try discriminate; injection Hop as _ Heq;
      cbn; rewrite Heq; reflexivity.
  - apply consistent_routed; assumption.
  - apply consistent_resumed; [| exact Hs].
    intros ->. apply Hplain. reflexivity.
Qed.

Lemma consistent_run listeners (ops : list Op) (s : Source) :
  plain ops -> consistent s -> consistent (run listeners ops s).
Proof.
  revert s. induction ops as [| op ops IH]; intros s Hplain Hs; [exact Hs |].
  apply Forall_cons in Hplain as [Hop Hplain].
  cbn. apply IH; [exact Hplain |]. apply consistent_step; assumption.
Qed.

Lemma request_step listeners (op : Op) (message : Message) (id : string)
    (s : Source) :
  request_of op = Some (message, id) ->
  step listeners op s = s \/ step listeners op s = registered message id s.
Proof.
  destruct op as [| | transform | transform | query | query | transform
                 | m | | m | i]; cbn [request_of step]; try discriminate;
    intros [= <- <-].
  - unfold _push. destruct (negb _); [apply request_cases | left; reflexivity].
  - unfold _update. destruct (negb _); [apply request_cases | left; reflexivity].
  - apply request_cases.
  - apply request_cases.
Qed.








(** C9, at the id "__proto__": after [_update] of a transform with that id,
    the routed [success] reply settles the continuation but the entry is
    still in the table; a second reply finds it, returns normally and calls
    the continuation a second time. *)
Lemma reply_for_proto_keeps_its_entry :
  let s := run noListeners [Activate; CallUpdate tProto] fresh in
  let s1 := fst (handleMessage (SuccessMessage "__proto__" (VData "first")) s) in
  let s2 := fst (handleMessage (SuccessMessage "__proto__" (VData "second")) s1) in
  _requests s !! "__proto__" = Some (mkResolver 0) /\
  promises s1 !! 0 = Some (Settled (Resolved (VData "first"))) /\
  _requests s1 !! "__proto__" = Some (mkResolver 0) /\
  snd (handleMessage (SuccessMessage "__proto__" (VData "second")) s1) = Ok tt /\
  invocations 0 (effects s2) = 2.
Proof. vm_compute. repeat split. Qed.

(** X23: in a run with no request under "__proto__", routing a [success] or
    [error] reply for an id with a live entry settles the continuation
    registered under that id, with the result or the error the reply
    carries, and removes that entry; every other entry stays in the table
    with its continuation pending and uncalled, and every other promise is
    as it was. *)
Theorem reply_settles_only_its_entry
    (listeners : string -> Payload -> Hints -> Hints * option Error)
    (settings : BroadcastChannelSourceSettings) (ops : list Op)
    (id : string) (r : Resolver) (o : Settlement) :
  plain ops ->
  let s := run listeners ops (constructor settings) in
  let s' := fst (handleMessage (reply id o) s) in
  _requests s !! id = Some r ->
  snd (handleMessage (reply id o) s) = Ok tt /\
  _requests s' = delete id (_requests s) /\
  promises s' !! promise r = Some (Settled o) /\
  effects s' = effects s ++ [Removed id; Invoke (promise r) o] /\
  (forall p, p <> promise r -> promises s' !! p = promises s !! p) /\
  (forall id' r',
      id' <> id -> _requests s !! id' = Some r' ->
      _requests s' !! id' = Some r' /\
      promise r' <> promise r /\
      promises s' !! promise r' = Some Pending /\
      invocations (promise r') (effects s') = 0).
Proof.
  intros Hplain s s' Hr. subst s'.
  assert (Hs : consistent s)
    by (apply consistent_run; [exact Hplain | apply consistent_constructor]).
  assert (Hid : id <> "__proto__")
    by (intros ->; pose proof (no_proto s Hs); congruence).
  pose proof (consistent_routed id r o s Hs Hr) as Hs'.
  pose proof (live_pending s Hs _ _ Hr) as Hp.
  rewrite (reply_routed id r o s Hr). cbn [fst snd].
  destruct (routed_fields id r o s Hid Hr Hp) as (Er & Ep & Ee).
  split; [reflexivity |]. split; [exact Er |].
  split; [rewrite Ep; apply list_lookup_insert_eq; eapply lookup_lt_Some; exact Hp |].
  split; [exact Ee |].
  split; [intros p Hne; rewrite Ep; apply list_lookup_insert_ne; congruence |].
  intros id' r' Hid' Hr'.
  assert (Hkept : _requests (routed id r o s) !! id' = Some r').
  { rewrite Er, lookup_delete_ne by congruence. exact Hr'. }
  pose proof (live_pending _ Hs' _ _ Hkept) as Hp'.
  split; [exact Hkept |].
  split; [intros Heq; apply Hid'; exact (live_distinct s Hs _ _ _ _ Hr' Hr Heq) |].
  split; [exact Hp' |].
  rewrite (invoked_once _ Hs'), Hp'. reflexivity.
Qed.

Lemma reply_settles_only_its_entry_witness :
  let s := run noListeners [Activate; CallUpdate t1; CallQuery q1]
               (constructor (mkSettings None None)) in
  let s' := fst (handleMessage (ErrorMessage "t1" (GenericError "ValidationFailed")) s) in
  _requests s !! "t1" = Some (mkResolver 0) /\
  promises s' !! 0 = Some (Settled (Failed (GenericError "ValidationFailed"))) /\
  _requests s' !! "q1" = Some (mkResolver 1) /\
  promises s' !! 1 = Some Pending.
Proof.
  assert (Hplain : plain [Activate; CallUpdate t1; CallQuery q1])
    by (repeat constructor; discriminate).
  assert (Ht : _requests (run noListeners [Activate; CallUpdate t1; CallQuery q1]
                            (constructor (mkSettings None None))) !! "t1"
               = Some (mkResolver 0)) by (vm_compute; reflexivity).
  pose proof (reply_settles_only_its_entry noListeners (mkSettings None None)
                [Activate; CallUpdate t1; CallQuery q1] "t1" (mkResolver 0)
                (Failed (GenericError "ValidationFailed")) Hplain Ht)
    as (_ & _ & Hsettled & _ & _ & Hothers).
  cbv zeta. split; [exact Ht |]. split; [exact Hsettled |].
  destruct (Hothers "q1" (mkResolver 1) ltac:(discriminate)
              ltac:(vm_compute; reflexivity)) as (Hq & _ & Hpending & _).
  split; [exact Hq | exact Hpending].
Defined.


(** * Further properties of the class *)

(** ** Construction and activation *)

Lemma or_default_nonempty (value : option string) (fallback : string) :
  fallback <> "" -> or_default value fallback <> "".
Proof.
  intros Hf. destruct value as [[| a v] |]; cbn; [exact Hf | discriminate | exact Hf].
Qed.

(** X1: a constructed source is named by its settings when they give a
    non-empty string and "broadcast" / "orbit" otherwise, so neither name is
    ever empty; it starts without a channel and without pending requests,
    and activation opens a channel under the channel name. *)
Theorem constructor_defaults (settings : BroadcastChannelSourceSettings) :
  let s := constructor settings in
  name s <> "" /\ _channelName s <> "" /\
  (forall n, settings_channel settings = Some n -> n <> "" -> _channelName s = n) /\
  (settings_channel settings = None \/ settings_channel settings = Some "" ->
   _channelName s = "orbit") /\
  (forall n, settings_name settings = Some n -> n <> "" -> name s = n) /\
  (settings_name settings = None \/ settings_name settings = Some "" ->
   name s = "broadcast") /\
  channel s = None /\ _requests s = ∅ /\
  channel (fst (_activate s)) = Some (mkChannel (_channelName s) false).
Proof.
  cbn. split; [apply or_default_nonempty; discriminate |].
  split; [apply or_default_nonempty; discriminate |].
  split; [intros n -> Hn; destruct n; [contradiction | reflexivity] |].
  split; [intros [-> | ->]; reflexivity |].
  split; [intros n -> Hn; destruct n; [contradiction | reflexivity] |].
  split; [intros [-> | ->]; reflexivity |].
  repeat split.
Qed.

Lemma constructor_defaults_witness :
  _channelName (constructor (mkSettings None (Some "authors"))) = "authors" /\
  _channelName (constructor (mkSettings None (Some ""))) = "orbit" /\
  name (constructor (mkSettings (Some "") None)) = "broadcast".
Proof.
  split; [| split].
  - apply (proj1 (proj2 (proj2 (constructor_defaults (mkSettings None (Some "authors")))))
             "authors" eq_refl). discriminate.
  - apply (proj1 (proj2 (proj2 (proj2 (constructor_defaults (mkSettings None (Some ""))))))).
    right. reflexivity.
  - apply (proj1 (proj2 (proj2 (proj2 (proj2 (proj2
             (constructor_defaults (mkSettings (Some "") None)))))))).
    right. reflexivity.
Defined.

(** ** The query and pull paths *)

(** X2: on an open channel [_query] posts the [query] message whatever the
    Transform Log holds, registers a fresh pending promise under the
    query's id and leaves the caller suspended on it; a [success] reply for
    that id makes it resolve with the very result the reply carries, an
    [error] reply makes it fail with the carried error. *)
Theorem forward_query_returns_the_reply (query : Query.t) (s : Source)
    (c : Channel) :
  channel s = Some c -> closed c = false ->
  awaits_reply (_query query) (QueryMessage query) (Query.id query)
               (fun result => result) s /\
  forall log,
    _query query (set_transformLog log s)
    = (set_transformLog log (fst (_query query s)), snd (_query query s)).
Proof.
  intros Hc Hopen. split.
  - exact (request_awaits_reply (QueryMessage query) (Query.id query)
             return_promise (fun result => result) s c Hc Hopen
             (fun _ => eq_refl) (fun _ => eq_refl)).
  - intros log. unfold _query, request, postMessage. cbn.
    rewrite Hc, Hopen. reflexivity.
Qed.

Lemma forward_query_returns_the_reply_witness :
  awaits_reply (_query q1) (QueryMessage q1) "q1" (fun result => result) live.
Proof.
  exact (proj1 (forward_query_returns_the_reply q1 live (mkChannel "orbit" false)
                  eq_refl eq_refl)).
Defined.

Lemma postMessage_open (message : Message) (s : Source) (c : Channel) :
  channel s = Some c -> closed c = false ->
  postMessage message s = (emit (PostMessage message) s, Ok tt).
Proof. intros Hc Hopen. unfold postMessage. rewrite Hc, Hopen. reflexivity. Qed.

(** X3: on an open channel the proxy of a query never consults the
    Transform Log and never throws.  When the [beforeQuery] chain fulfils,
    it notifies [proxyQuery] with the data the listeners left in the hints
    ([undefined] if none), posts that data in a [success] reply and
    returns it; when the chain rejects, it notifies [queryFail], posts the
    error in an [error] reply, and returns [undefined]. *)
Theorem proxy_query_replies
    (listeners : string -> Payload -> Hints -> Hints * option Error)
    (query : Query.t) (s : Source) (c : Channel) :
  channel s = Some c -> closed c = false ->
  (forall hints,
      listeners "beforeQuery" (PQuery query) emptyHints = (hints, None) ->
      snd (__proxyQuery__ listeners query s) = Ok (hints_data hints) /\
      effects (fst (__proxyQuery__ listeners query s))
        = effects s ++
          [FulfillInSeries "beforeQuery" (PQuery query) emptyHints;
           SettleInSeries "proxyQuery" (PQuery query) (AValue (hints_data hints));
           PostMessage (SuccessMessage (Query.id query) (hints_data hints))]) /\
  (forall hints error,
      listeners "beforeQuery" (PQuery query) emptyHints = (hints, Some error) ->
      snd (__proxyQuery__ listeners query s) = Ok VUndefined /\
      effects (fst (__proxyQuery__ listeners query s))
        = effects s ++
          [FulfillInSeries "beforeQuery" (PQuery query) emptyHints;
           SettleInSeries "queryFail" (PQuery query) (AError error);
           PostMessage (ErrorMessage (Query.id query) error)]) /\
  (forall log,
      __proxyQuery__ listeners query (set_transformLog log s)
      = (set_transformLog log (fst (__proxyQuery__ listeners query s)),
         snd (__proxyQuery__ listeners query s))).
Proof.
  intros Hc Hopen.
  unfold __proxyQuery__, try_catch, bind, fulfillInSeries, settleInSeries, ret.
  split; [| split].
  - intros hints Hl. rewrite Hl. cbn.
    rewrite (postMessage_open _ _ c) by assumption. cbn.
    rewrite <- !app_assoc. split; reflexivity.
  - intros hints error Hl. rewrite Hl. cbn.
    rewrite (postMessage_open _ _ c) by assumption. cbn.
    rewrite <- !app_assoc. split; reflexivity.
  - intros log.
    destruct (listeners "beforeQuery" (PQuery query) emptyHints)
      as [hints [error |]]; cbn;
      rewrite !(postMessage_open _ _ c) by assumption; reflexivity.
Qed.

Lemma proxy_query_replies_witness :
  snd (__proxyQuery__ noListeners q1 live) = Ok VUndefined /\
  posted (effects (fst (__proxyQuery__ noListeners q1 live)))
  = [SuccessMessage "q1" VUndefined].
Proof.
  destruct (proj1 (proxy_query_replies noListeners q1 live (mkChannel "orbit" false)
                     eq_refl eq_refl) emptyHints eq_refl) as [H1 H2].
  split; [exact H1 |]. rewrite H2. reflexivity.
Defined.

(** X4: on an open channel the proxy of a pull never throws.  When the
    [beforePull] chain fulfils, it notifies [proxyPull] with an empty
    list, posts a [success] reply without a result and returns the empty
    list, whatever the listeners left in the hints; when the chain
    rejects, it notifies [pullFail], posts the error in an [error] reply,
    and returns [undefined]. *)
Theorem proxy_pull_replies_without_result
    (listeners : string -> Payload -> Hints -> Hints * option Error)
    (query : Query.t) (s : Source) (c : Channel) :
  channel s = Some c -> closed c = false ->
  (forall hints,
      listeners "beforePull" (PQuery query) emptyHints = (hints, None) ->
      snd (__proxyPull__ listeners query s) = Ok (VArray []) /\
      effects (fst (__proxyPull__ listeners query s))
        = effects s ++
          [FulfillInSeries "beforePull" (PQuery query) emptyHints;
           SettleInSeries "proxyPull" (PQuery query) (AValue (VArray []));
           PostMessage (SuccessMessage (Query.id query) VUndefined)]) /\
  (forall hints error,
      listeners "beforePull" (PQuery query) emptyHints = (hints, Some error) ->
      snd (__proxyPull__ listeners query s) = Ok VUndefined /\
      effects (fst (__proxyPull__ listeners query s))
        = effects s ++
          [FulfillInSeries "beforePull" (PQuery query) emptyHints;
           SettleInSeries "pullFail" (PQuery query) (AError error);
           PostMessage (ErrorMessage (Query.id query) error)]).
Proof.
  intros Hc Hopen.
  unfold __proxyPull__, try_catch, bind, fulfillInSeries, settleInSeries, ret.
  split.
  - intros hints Hl. rewrite Hl. cbn.
    rewrite (postMessage_open _ _ c) by assumption. cbn.
    rewrite <- !app_assoc. split; reflexivity.
  - intros hints error Hl. rewrite Hl. cbn.
    rewrite (postMessage_open _ _ c) by assumption. cbn.
    rewrite <- !app_assoc. split; reflexivity.
Qed.

Lemma proxy_pull_replies_without_result_witness :
  snd (__proxyPull__ answeringListeners q1 live) = Ok (VArray []) /\
  posted (effects (fst (__proxyPull__ answeringListeners q1 live)))
  = [SuccessMessage "q1" VUndefined].
Proof.
  destruct (proj1 (proxy_pull_replies_without_result answeringListeners q1 live
                     (mkChannel "orbit" false) eq_refl eq_refl)
              (mkHints (Some (VData "rows"))) eq_refl) as [H1 H2].
  split; [exact H1 |]. rewrite H2. reflexivity.
Defined.

(** ** A request and its reply between two nodes *)

Lemma posted_app (es es' : list Effect) :
  posted (es ++ es') = posted es ++ posted es'.
Proof.
  induction es as [| e es IH]; [reflexivity |].
  destruct e; cbn; rewrite ?IH; reflexivity.
Qed.

Lemma posted_since_app (s s' : Source) (es : list Effect) :
  effects s' = effects s ++ es -> posted_since s s' = posted es.
Proof.
  intros H. unfold posted_since. rewrite H, posted_app. apply drop_app_length.
Qed.

Lemma request_open (message : Message) (id : string)
    (k : Settlement -> Result Value) (s : Source) (c : Channel) :
  channel s = Some c -> closed c = false ->
  request message id k s = (registered message id s, Awaiting (length (promises s)) k).
Proof.
  intros Hc Hopen. unfold request, postMessage, newPromise.
  rewrite Hc, Hopen. reflexivity.
Qed.

(** The queue turn of a peer that had nothing queued performs the request
    it was just delivered. *)
Lemma proxied_effects listeners (message : Message) (task : Task) (b : Source) :
  _requestQueue b = [] -> task_of message = Some task ->
  effects (proxied listeners message b)
  = effects (fst (perform listeners task (set_requestQueue [task] b))).
Proof.
  intros Hq Htask. unfold proxied.
  assert (Hh : handleMessage message b = (set_requestQueue [task] b, Ok tt)).
  { destruct message; cbn in Htask; try discriminate;
      injection Htask as <-; cbn; unfold requestQueue_push; rewrite Hq; reflexivity. }
  rewrite Hh. cbn [fst]. unfold processQueue. cbn [_requestQueue set_requestQueue].
  destruct (perform listeners task (set_requestQueue [task] b)) as [s' r].
  reflexivity.
Qed.

(** When the peer answers the request with the reply of outcome [o], the
    caller is left with the rest of its method applied to [o]. *)
Lemma exchange_replied listeners (message : Message) (id : string)
    (k : Settlement -> Result Value) (o : Settlement) (a b : Source)
    (c : Channel) :
  channel a = Some c -> closed c = false ->
  posted_since b (proxied listeners message b) = [reply id o] ->
  snd (exchange listeners (request message id k) a b) = Some (k o).
Proof.
  intros Hc Hopen Hreply. unfold exchange.
  rewrite (request_open message id k a c Hc Hopen). cbn [fst snd].
  rewrite (posted_since_app a (registered message id a) [PostMessage message])
    by reflexivity.
  cbn [posted foldl]. rewrite Hreply. cbn [foldl].
  assert (Hentry : _requests (registered message id a) !! id
                   = Some (mkResolver (length (promises a)))).
  { cbn. apply lookup_insert_eq. }
  assert (Hpending : promises (registered message id a) !! length (promises a)
                     = Some Pending).
  { cbn. rewrite lookup_app_r by lia. rewrite Nat.sub_diag. reflexivity. }
  pose proof (routed_reply_settles _ id _ o Hentry Hpending) as H.
  cbn [promise] in H. unfold outcome. rewrite H. reflexivity.
Qed.


Lemma exchange_ext listeners (call call' : Source -> Source * Async Value)
    (a b : Source) :
  call a = call' a -> exchange listeners call a b = exchange listeners call' a b.
Proof. intros H. unfold exchange. rewrite H. reflexivity. Qed.

Ltac peer_posts Hq message task es :=
  rewrite (posted_since_app _ _ es); [reflexivity |];
  rewrite (proxied_effects _ message task _ Hq eq_refl); cbn [perform];
  unfold __proxyQuery__, __proxyPull__, __proxyUpdate__, __proxyPush__,
    try_catch, bind, fulfillInSeries, settleInSeries, ret;
  cbn [transformLog set_requestQueue].

Lemma peer_answers_update listeners (transform : Transform.t) (b : Source)
    (c : Channel) (hints : Hints) (failure : option Error) :
  channel b = Some c -> closed c = false -> _requestQueue b = [] ->
  Transform.id transform ∉ transformLog b ->
  listeners "beforeUpdate" (PTransform transform) emptyHints = (hints, failure) ->
  posted_since b (proxied listeners (UpdateMessage transform) b)
  = [reply (Transform.id transform)
           (match failure with
            | None => Resolved (hints_data hints)
            | Some error => Failed error
            end)].
Proof.
  intros Hc Hopen Hq Hout Hl. apply contains_false in Hout.
  destruct failure as [error |].
  - peer_posts Hq (UpdateMessage transform) (proxyUpdate transform)
      [FulfillInSeries "beforeUpdate" (PTransform transform) emptyHints;
       SettleInSeries "updateFail" (PTransform transform) (AError error);
       PostMessage (ErrorMessage (Transform.id transform) error)].
    rewrite Hout, Hl. cbn. rewrite (postMessage_open _ _ c) by assumption.
    cbn. rewrite <- !app_assoc. reflexivity.
  - peer_posts Hq (UpdateMessage transform) (proxyUpdate transform)
      [FulfillInSeries "beforeUpdate" (PTransform transform) emptyHints;
       SettleInSeries "proxyUpdate" (PTransform transform) (AValue (hints_data hints));
       PostMessage (SuccessMessage (Transform.id transform) (hints_data hints))].
    rewrite Hout, Hl. cbn. rewrite (postMessage_open _ _ c) by assumption.
    cbn. rewrite <- !app_assoc. reflexivity.
Qed.

Lemma peer_answers_push listeners (transform : Transform.t) (b : Source)
    (c : Channel) (hints : Hints) (failure : option Error) :
  channel b = Some c -> closed c = false -> _requestQueue b = [] ->
  Transform.id transform ∉ transformLog b ->
  listeners "beforePush" (PTransform transform) emptyHints = (hints, failure) ->
  posted_since b (proxied listeners (PushMessage transform) b)
  = [reply (Transform.id transform)
           (match failure with
            | None => Resolved VUndefined
            | Some error => Failed error
            end)].
Proof.
  intros Hc Hopen Hq Hout Hl. apply contains_false in Hout.
  destruct failure as [error |].
  - peer_posts Hq (PushMessage transform) (proxyPush transform)
      [FulfillInSeries "beforePush" (PTransform transform) emptyHints;
       SettleInSeries "pushFail" (PTransform transform) (AError error);
       PostMessage (ErrorMessage (Transform.id transform) error)].
    rewrite Hout, Hl. cbn. rewrite (postMessage_open _ _ c) by assumption.
    cbn. rewrite <- !app_assoc. reflexivity.
  - peer_posts Hq (PushMessage transform) (proxyPush transform)
      [FulfillInSeries "beforePush" (PTransform transform) emptyHints;
       SettleInSeries "proxyPush" (PTransform transform) (AValue (VArray []));
       PostMessage (SuccessMessage (Transform.id transform) VUndefined)].
    rewrite Hout, Hl. cbn. rewrite (postMessage_open _ _ c) by assumption.
    cbn. rewrite <- !app_assoc. reflexivity.
Qed.




(** X5: a write forwarded from node [a] and proxied by a peer [b] that
    does not hold the transform yet (both on open channels, nothing queued
    on [b]): when the peer's before-write chain fulfils, [_update] on [a]
    resolves with the data the peer's listeners left in the hints and
    [_push] with the empty list; when it rejects, both fail on [a] with
    the peer's error. *)
Theorem forwarded_write_round_trip
    (listeners : string -> Payload -> Hints -> Hints * option Error)
    (transform : Transform.t) (a b : Source) (ca cb : Channel) :
  channel a = Some ca -> closed ca = false ->
  channel b = Some cb -> closed cb = false -> _requestQueue b = [] ->
  Transform.id transform ∉ transformLog a ->
  Transform.id transform ∉ transformLog b ->
  (forall hints failure,
      listeners "beforeUpdate" (PTransform transform) emptyHints = (hints, failure) ->
      snd (exchange listeners (_update transform) a b)
      = Some (match failure with
              | None => Ok (hints_data hints)
              | Some error => Throw error
              end)) /\
  (forall hints failure,
      listeners "beforePush" (PTransform transform) emptyHints = (hints, failure) ->
      snd (exchange listeners (_push transform) a b)
      = Some (match failure with
              | None => Ok (VArray [])
              | Some error => Throw error
              end)).
Proof.
  intros Hca Hopena Hcb Hopenb Hq Houta Houtb.
  apply contains_false in Houta. split.
  - intros hints failure Hl.
    rewrite (exchange_ext listeners (_update transform)
               (request (UpdateMessage transform) (Transform.id transform) return_promise))
      by (unfold _update; rewrite Houta; reflexivity).
    rewrite (exchange_replied listeners _ _ _ _ a b ca Hca Hopena
               (peer_answers_update listeners transform b cb hints failure
                  Hcb Hopenb Hq Houtb Hl)).
    destruct failure; reflexivity.
  - intros hints failure Hl.
    rewrite (exchange_ext listeners (_push transform)
               (request (PushMessage transform) (Transform.id transform)
                        (await_return (VArray []))))
      by (unfold _push; rewrite Houta; reflexivity).
    rewrite (exchange_replied listeners _ _ _ _ a b ca Hca Hopena
               (peer_answers_push listeners transform b cb hints failure
                  Hcb Hopenb Hq Houtb Hl)).
    destruct failure; reflexivity.
Qed.

Lemma forwarded_write_round_trip_witness :
  snd (exchange cachingListeners (_update t1) live live) = Some (Ok (VData "cached")) /\
  snd (exchange validatingListeners (_push t1) live live)
  = Some (Throw (GenericError "ValidationFailed")).
Proof.
  split.
  - apply (proj1 (forwarded_write_round_trip cachingListeners t1 live live
                    (mkChannel "orbit" false) (mkChannel "orbit" false)
                    eq_refl eq_refl eq_refl eq_refl eq_refl
                    ltac:(apply contains_false; reflexivity)
                    ltac:(apply contains_false; reflexivity))
                 (mkHints (Some (VData "cached"))) None eq_refl).
  - apply (proj2 (forwarded_write_round_trip validatingListeners t1 live live
                    (mkChannel "orbit" false) (mkChannel "orbit" false)
                    eq_refl eq_refl eq_refl eq_refl eq_refl
                    ltac:(apply contains_false; reflexivity)
                    ltac:(apply contains_false; reflexivity))
                 emptyHints (Some (GenericError "ValidationFailed")) eq_refl).
Defined.





(** ** Deliveries *)

Lemma invoke_frame (r : Resolver) (o : Settlement) (s : Source) :
  _requestQueue (invoke r o s) = _requestQueue s /\
  transformLog (invoke r o s) = transformLog s /\
  channel (invoke r o s) = channel s /\
  _requests (invoke r o s) = _requests s /\
  effects (invoke r o s) = effects s ++ [Invoke (promise r) o].
Proof.
  unfold invoke. cbn.
  destruct (promises s !! promise r) as [[|] |]; repeat split.
Qed.

Lemma deleteRequest_posted (id : string) (s : Source) :
  posted (effects (fst (deleteRequest id s))) = posted (effects s).
Proof.
  unfold deleteRequest. case_decide; [reflexivity |].
  destruct (_requests s !! id); [| reflexivity].
  cbn. rewrite posted_app. cbn. apply app_nil_r.
Qed.

Lemma delivery_frame (message : Message) (s : Source) :
  let s' := fst (handleMessage message s) in
  _requestQueue s' = _requestQueue s ++ option_list (task_of message) /\
  transformLog s' = transformLog s /\
  channel s' = channel s /\
  posted (effects s') = posted (effects s).
Proof.
  assert (Hreply : forall id o,
             let s' := fst (handleMessage (reply id o) s) in
             _requestQueue s' = _requestQueue s /\
             transformLog s' = transformLog s /\
             channel s' = channel s /\
             posted (effects s') = posted (effects s)).
  { intros id o. cbv zeta.
    destruct (_requests s !! id) as [r |] eqn:Hr.
    - rewrite (reply_routed id r o s Hr). cbn [fst]. unfold routed.
      destruct (deleteRequest_frame id s) as (_ & _ & Hl & Hc & Hq).
      pose proof (deleteRequest_posted id s) as Hp.
      destruct (deleteRequest id s) as [s0 res]. cbn [fst] in *.
      destruct (invoke_frame r o s0) as (-> & -> & -> & _ & ->).
      rewrite posted_app. cbn. rewrite app_nil_r. repeat split; assumption.
    - rewrite (reply_dropped id o s Hr). repeat split. }
  destruct message as [transform | query | query | transform | transform
                      | id result | id error]; cbv zeta; cbn [task_of option_list].
  - cbn. rewrite posted_app, !app_nil_r. repeat split.
  - cbn. repeat split.
  - cbn. repeat split.
  - cbn. repeat split.
  - cbn. repeat split.
  - rewrite app_nil_r. apply (Hreply id (Resolved result)).
  - rewrite app_nil_r. apply (Hreply id (Failed error)).
Qed.

(** X8: however many messages are delivered in a row, and whatever they
    are, [handleMessage] queues the requests among them behind what was
    queued, in arrival order, and does nothing else to the store side of
    the node: it posts no message, leaves the Transform Log and the channel
    as they were. *)
Theorem deliveries_queue_requests_in_arrival_order
    (listeners : string -> Payload -> Hints -> Hints * option Error)
    (messages : list Message) (s : Source) :
  let s' := run listeners (Deliver <$> messages) s in
  _requestQueue s' = _requestQueue s ++ omap task_of messages /\
  transformLog s' = transformLog s /\
  channel s' = channel s /\
  posted (effects s') = posted (effects s).
Proof.
  revert s. induction messages as [| message messages IH]; intros s; cbv zeta.
  - cbn. rewrite app_nil_r. repeat split.
  - cbn [fmap list_fmap run foldl step].
    destruct (delivery_frame message s) as (Hq & Hl & Hc & Hp).
    destruct (IH (fst (handleMessage message s))) as (Hq' & Hl' & Hc' & Hp').
    unfold run in *. rewrite Hq', Hl', Hc', Hp', Hq, Hl, Hc, Hp.
    rewrite <- app_assoc. cbn [omap list_omap].
    destruct (task_of message); repeat split.
Qed.

(** ** Without an open channel *)

(** X9: while the source has no channel (it was never activated: the
    [TypeError] of the property access) or a closed one, every outbound
    call that would post rejects with the error of the post and leaves the
    source as it was: no entry is registered, and [_sync] does not apply
    the transform locally. *)
Theorem outbound_calls_need_an_open_channel (s : Source) (e : Error)
    (transform : Transform.t) (query : Query.t) :
  post_failure s = Some e ->
  _pull query s = (s, Rejected e) /\
  _query query s = (s, Rejected e) /\
  (Transform.id transform ∉ transformLog s ->
   _push transform s = (s, Rejected e) /\
   _update transform s = (s, Rejected e) /\
   _sync transform s = (s, Throw e)).
Proof.
  intros He.
  unfold _pull, _query, _push, _update, _sync, request, bind.
  rewrite !(postMessage_fails _ s e He).
  split; [reflexivity |]. split; [reflexivity |].
  intros Hout. apply contains_false in Hout. rewrite Hout. cbn.
  repeat split.
Qed.

Lemma outbound_calls_need_an_open_channel_witness :
  _query q1 fresh
  = (fresh, Rejected (TypeError "Cannot read property 'postMessage' of undefined")) /\
  _sync t1 fresh
  = (fresh, Throw (TypeError "Cannot read property 'postMessage' of undefined")).
Proof.
  destruct (outbound_calls_need_an_open_channel fresh
              (TypeError "Cannot read property 'postMessage' of undefined")
              t1 q1 eq_refl) as (_ & Hq & Hw).
  split; [exact Hq |].
  exact (proj2 (proj2 (Hw ltac:(apply contains_false; reflexivity)))).
Defined.

(** X10: when the reply cannot be posted (no channel, or a closed one), a
    proxy whose before chain fulfils notifies the listeners of the success
    event and then, with the error of the post, those of the failure
    event as well; nothing is posted and the proxy itself ends in a throw
    of that error.  This holds for the four proxies (for the write
    proxies, on a transform the log does not hold). *)
Theorem proxy_without_channel_notifies_both_chains
    (listeners : string -> Payload -> Hints -> Hints * option Error)
    (s : Source) (e : Error) (transform : Transform.t) (query : Query.t) :
  post_failure s = Some e ->
  (forall hints,
      listeners "beforeQuery" (PQuery query) emptyHints = (hints, None) ->
      snd (__proxyQuery__ listeners query s) = Throw e /\
      effects (fst (__proxyQuery__ listeners query s))
      = effects s ++
        [FulfillInSeries "beforeQuery" (PQuery query) emptyHints;
         SettleInSeries "proxyQuery" (PQuery query) (AValue (hints_data hints));
         SettleInSeries "queryFail" (PQuery query) (AError e)]) /\
  (forall hints,
      listeners "beforePull" (PQuery query) emptyHints = (hints, None) ->
      snd (__proxyPull__ listeners query s) = Throw e /\
      effects (fst (__proxyPull__ listeners query s))
      = effects s ++
        [FulfillInSeries "beforePull" (PQuery query) emptyHints;
         SettleInSeries "proxyPull" (PQuery query) (AValue (VArray []));
         SettleInSeries "pullFail" (PQuery query) (AError e)]) /\
  (Transform.id transform ∉ transformLog s ->
   (forall hints,
       listeners "beforeUpdate" (PTransform transform) emptyHints = (hints, None) ->
       snd (__proxyUpdate__ listeners transform s) = Throw e /\
       effects (fst (__proxyUpdate__ listeners transform s))
       = effects s ++
         [FulfillInSeries "beforeUpdate" (PTransform transform) emptyHints;
          SettleInSeries "proxyUpdate" (PTransform transform) (AValue (hints_data hints));
          SettleInSeries "updateFail" (PTransform transform) (AError e)]) /\
   (forall hints,
       listeners "beforePush" (PTransform transform) emptyHints = (hints, None) ->
       snd (__proxyPush__ listeners transform s) = Throw e /\
       effects (fst (__proxyPush__ listeners transform s))
       = effects s ++
         [FulfillInSeries "beforePush" (PTransform transform) emptyHints;
          SettleInSeries "proxyPush" (PTransform transform) (AValue (VArray []));
          SettleInSeries "pushFail" (PTransform transform) (AError e)])).
Proof.
  intros He.
  assert (Hpost : forall message s0, post_failure s0 = post_failure s ->
                    postMessage message s0 = (s0, Throw e)).
  { intros message s0 H. apply postMessage_fails. congruence. }
  split; [| split; [| intros Hout; apply contains_false in Hout; split]].
  - intros hints Hl.
    unfold __proxyQuery__, try_catch, bind, fulfillInSeries, settleInSeries, ret.
    rewrite Hl. cbn. rewrite !Hpost by reflexivity. cbn.
    rewrite <- !app_assoc. split; reflexivity.
  - intros hints Hl.
    unfold __proxyPull__, try_catch, bind, fulfillInSeries, settleInSeries, ret.
    rewrite Hl. cbn. rewrite !Hpost by reflexivity. cbn.
    rewrite <- !app_assoc. split; reflexivity.
  - intros hints Hl.
    unfold __proxyUpdate__, try_catch, bind, fulfillInSeries, settleInSeries, ret.
    rewrite Hout, Hl. cbn. rewrite !Hpost by reflexivity. cbn.
    rewrite <- !app_assoc. split; reflexivity.
  - intros hints Hl.
    unfold __proxyPush__, try_catch, bind, fulfillInSeries, settleInSeries, ret.
    rewrite Hout, Hl. cbn. rewrite !Hpost by reflexivity. cbn.
    rewrite <- !app_assoc. split; reflexivity.
Qed.

Lemma proxy_without_channel_notifies_both_chains_witness :
  snd (__proxyQuery__ answeringListeners q1 fresh)
  = Throw (TypeError "Cannot read property 'postMessage' of undefined") /\
  posted (effects (fst (__proxyQuery__ answeringListeners q1 fresh))) = [].
Proof.
  destruct (proj1 (proxy_without_channel_notifies_both_chains answeringListeners fresh
                     (TypeError "Cannot read property 'postMessage' of undefined")
                     t1 q1 eq_refl)
              (mkHints (Some (VData "rows"))) eq_refl) as [H1 H2].
  split; [exact H1 |]. rewrite H2. reflexivity.
Defined.

(** ** Replies that come twice, and results that stay *)

Lemma reply_unrouted (id : string) (o : Settlement) (s : Source) :
  _requests s !! id = None ->
  handleMessage (reply id o) s
  = (s, Throw (TypeError "Cannot destructure property of undefined")).
Proof.
  intros Hr. destruct o; cbn;
    unfold resolveRequest, rejectRequest, bind, lookupRequest; rewrite Hr;
    reflexivity.
Qed.

Lemma invoke_settled (r : Resolver) (o o' : Settlement) (s : Source) :
  promises s !! promise r = Some (Settled o) ->
  promises (invoke r o' s) = promises s.
Proof. intros Hp. unfold invoke. cbn. rewrite Hp. reflexivity. Qed.

Lemma invoke_keeps_promise (r : Resolver) (o : Settlement) (s : Source)
    (p : nat) (o0 : Settlement) :
  promises s !! p = Some (Settled o0) ->
  promises (invoke r o s) !! p = Some (Settled o0).
Proof.
  intros Hp. unfold invoke. cbn.
  destruct (promises s !! promise r) as [[|] |] eqn:Hr; cbn; try exact Hp.
  rewrite list_lookup_insert_ne; [exact Hp | congruence].
Qed.

(** X11: the first reply for a pending request wins.  Once a [success] or
    [error] reply for an id has been routed, the promise holds its outcome
    and a second reply for the same id, whatever it carries, does not
    change it.  The second reply raises a [TypeError] and changes nothing,
    unless the id is "__proto__": the entry of that id is still found, and
    the second reply returns normally. *)
Theorem second_reply_raises (s : Source) (id : string) (r : Resolver)
    (o o' : Settlement) :
  _requests s !! id = Some r ->
  promises s !! promise r = Some Pending ->
  let s1 := fst (handleMessage (reply id o) s) in
  promises s1 !! promise r = Some (Settled o) /\
  promises (fst (handleMessage (reply id o') s1)) !! promise r
  = Some (Settled o) /\
  (id <> "__proto__" ->
   handleMessage (reply id o') s1
   = (s1, Throw (TypeError "Cannot destructure property of undefined"))) /\
  (id = "__proto__" ->
   _requests s1 !! id = Some r /\
   snd (handleMessage (reply id o') s1) = Ok tt).
Proof.
  intros Hr Hp. cbv zeta.
  pose proof (routed_reply_settles s id r o Hr Hp) as Hsettled.
  assert (Hraises : id <> "__proto__" ->
            handleMessage (reply id o') (fst (handleMessage (reply id o) s))
            = (fst (handleMessage (reply id o) s),
               Throw (TypeError "Cannot destructure property of undefined"))).
  { intros Hid. apply reply_unrouted.
    rewrite (reply_routed id r o s Hr). cbn [fst].
    destruct (routed_fields id r o s Hid Hr Hp) as (-> & _ & _).
    apply lookup_delete_eq. }
  assert (Hstays : id = "__proto__" ->
            _requests (fst (handleMessage (reply id o) s)) !! id = Some r).
  { intros ->. rewrite (reply_routed _ r o s Hr). cbn [fst].
    rewrite routed_proto.
    destruct (invoke_frame r o s) as (_ & _ & _ & -> & _). exact Hr. }
  split; [exact Hsettled |]. split; [| split; [exact Hraises |]].
  - destruct (decide (id = "__proto__")) as [Hid | Hid].
    + rewrite (reply_routed id r o' _ (Hstays Hid)). cbn [fst]. unfold routed.
      apply invoke_keeps_promise.
      destruct (deleteRequest_frame id (fst (handleMessage (reply id o) s)))
        as (_ & Hd & _).
      destruct (deleteRequest id (fst (handleMessage (reply id o) s))) as [s0 res].
      cbn [fst] in *. rewrite Hd. exact Hsettled.
    + rewrite (Hraises Hid). exact Hsettled.
  - intros Hid. split; [exact (Hstays Hid) |].
    rewrite (reply_routed id r o' _ (Hstays Hid)). reflexivity.
Qed.

Lemma second_reply_raises_witness :
  let s := fst (_update t1 live) in
  let s1 := fst (handleMessage (SuccessMessage "t1" (VData "first")) s) in
  handleMessage (ErrorMessage "t1" (GenericError "second")) s1
  = (s1, Throw (TypeError "Cannot destructure property of undefined")) /\
  promises s1 !! 0 = Some (Settled (Resolved (VData "first"))).
Proof.
  destruct (second_reply_raises (fst (_update t1 live)) "t1" (mkResolver 0)
              (Resolved (VData "first")) (Failed (GenericError "second"))
              eq_refl eq_refl) as (H1 & _ & H2 & _).
  split; [exact (H2 ltac:(discriminate)) | exact H1].
Defined.

Lemma step_keeps_settled listeners (op : Op) (s : Source) (p : nat)
    (o : Settlement) :
  promises s !! p = Some (Settled o) ->
  promises (step listeners op s) !! p = Some (Settled o).
Proof.
  intros Hp.
  destruct (step_cases listeners op s)
    as [(_ & -> & _) | [(message & id & _ & ->) | [(id & r & o' & _ & _ & ->)
       | (id & _ & ->)]]].
  - exact Hp.
  - cbn. rewrite lookup_app_l; [exact Hp | eapply lookup_lt_Some; exact Hp].
  - unfold routed. apply invoke_keeps_promise.
    destruct (deleteRequest_frame id s) as (_ & Hd & _).
    destruct (deleteRequest id s) as [s0 res]. cbn [fst] in *.
    rewrite Hd. exact Hp.
  - cbn. rewrite lookup_app_l; [exact Hp | eapply lookup_lt_Some; exact Hp].
Qed.

(** X12: what a caller has observed stays.  Once an outbound call has
    resolved or failed, no later call, delivery or queue turn on the node
    changes its outcome. *)
Theorem outcome_is_final
    (listeners : string -> Payload -> Hints -> Hints * option Error)
    (ops : list Op) (s : Source) (call : Async Value) (result : Result Value) :
  outcome call s = Some result ->
  outcome call (run listeners ops s) = Some result.
Proof.
  revert s. induction ops as [| op ops IH]; intros s H; [exact H |].
  cbn. apply IH. destruct call as [v | e | p k]; cbn in *; try exact H.
  destruct (promises s !! p) as [[| o] |] eqn:Hp; try discriminate.
  rewrite (step_keeps_settled listeners op s p o Hp). exact H.
Qed.

Lemma outcome_is_final_witness :
  let s := fst (handleMessage (SuccessMessage "t1" (VData "first"))
                  (fst (_update t1 live))) in
  outcome (snd (_update t1 live))
          (run noListeners
               [CallUpdate t1; Deliver (ErrorMessage "t1" (GenericError "late")); Deactivate]
               s)
  = Some (Ok (VData "first")).
Proof.
  cbv zeta.
  apply (outcome_is_final noListeners
           [CallUpdate t1; Deliver (ErrorMessage "t1" (GenericError "late")); Deactivate]).
  vm_compute. reflexivity.
Defined.

(** ** The Transform Log along the runs of a node *)

Lemma preserves_bind {A B X} (f : Source -> X) (m : M A) (k : A -> M B) :
  preserves f m -> (forall a, preserves f (k a)) -> preserves f (bind m k).
Proof.
  intros Hm Hk s. unfold bind. specialize (Hm s).
  destruct (m s) as [s' [a | e]]; cbn in *; [| exact Hm].
  rewrite Hk. exact Hm.
Qed.

Lemma preserves_try_catch {A X} (f : Source -> X) (body : M A)
    (handler : Error -> M A) :
  preserves f body -> (forall e, preserves f (handler e)) ->
  preserves f (try_catch body handler).
Proof.
  intros Hm Hk s. unfold try_catch. specialize (Hm s).
  destruct (body s) as [s' [a | e]]; cbn in *; [exact Hm |].
  rewrite Hk. exact Hm.
Qed.

Lemma postMessage_log (message : Message) :
  preserves transformLog (postMessage message).
Proof.
  intros s. unfold postMessage.
  destruct (channel s) as [c |]; [destruct (closed c) |]; reflexivity.
Qed.

Lemma fulfillInSeries_log listeners (event : string) (payload : Payload)
    (hints : Hints) :
  preserves transformLog (fulfillInSeries listeners event payload hints).
Proof.
  intros s. unfold fulfillInSeries.
  destruct (listeners event payload hints) as [h [e |]]; reflexivity.
Qed.

Lemma settleInSeries_log (event : string) (payload : Payload) (arg : Arg) :
  preserves transformLog (settleInSeries event payload arg).
Proof. intros s. reflexivity. Qed.

Lemma ret_log {A} (a : A) : preserves transformLog (ret a).
Proof. intros s. reflexivity. Qed.

Ltac log_steps :=
  repeat first
    [ apply postMessage_log
    | apply fulfillInSeries_log
    | apply settleInSeries_log
    | apply ret_log
    | apply preserves_try_catch
    | apply preserves_bind
    | intro ].

Lemma perform_log listeners (task : Task) :
  preserves transformLog (perform listeners task).
Proof.
  destruct task as [query | query | transform | transform]; cbn [perform].
  - unfold __proxyQuery__. log_steps.
  - unfold __proxyPull__. log_steps.
  - intros s. unfold __proxyUpdate__.
    destruct (contains _ _); [reflexivity |]. revert s. log_steps.
  - intros s. unfold __proxyPush__.
    destruct (contains _ _); [reflexivity |]. revert s. log_steps.
Qed.

(** A step leaves the log alone, unless it is a [_sync] of a transform the
    log does not hold, which appends the id of that transform. *)
Lemma step_log listeners (op : Op) (s : Source) :
  transformLog (step listeners op s) = transformLog s \/
  (exists transform,
      op = CallSync transform /\
      (Transform.id transform ∉ transformLog s) /\
      transformLog (step listeners op s)
      = transformLog s ++ [Transform.id transform]).
Proof.
  destruct op as [| | transform | transform | query | query | transform
                 | message | | message | id].
  - left. reflexivity.
  - left. cbn [step]. unfold deactivate, bind, channel_close.
    destruct (channel s); reflexivity.
  - left. destruct (request_step listeners (CallPush transform) _ _ s eq_refl)
      as [-> | ->]; reflexivity.
  - left. destruct (request_step listeners (CallUpdate transform) _ _ s eq_refl)
      as [-> | ->]; reflexivity.
  - left. destruct (request_step listeners (CallPull query) _ _ s eq_refl)
      as [-> | ->]; reflexivity.
  - left. destruct (request_step listeners (CallQuery query) _ _ s eq_refl)
      as [-> | ->]; reflexivity.
  - cbn [step]. unfold _sync.
    destruct (contains (transformLog s) (Transform.id transform)) eqn:Hin;
      cbn [negb]; [left; reflexivity |].
    unfold bind, postMessage.
    destruct (channel s) as [c |]; [destruct (closed c) |]; try (left; reflexivity).
    right. exists transform. split; [reflexivity |].
    split; [apply contains_false; exact Hin |].
    cbn. unfold log_append. rewrite Hin. reflexivity.
  - left. apply (delivery_frame message s).
  - left. cbn [step]. unfold processQueue.
    destruct (_requestQueue s) as [| task rest]; [reflexivity |].
    pose proof (perform_log listeners task s) as H.
    destruct (perform listeners task s) as [s' r]. exact H.
  - left. apply (postMessage_log message s).
  - left. reflexivity.
Qed.

(** X13: along every run of a node the Transform Log only grows at its
    end and never comes to hold an id twice; only the calls of [_sync]
    extend it: a run without them, whatever it delivers and proxies,
    leaves the log as it was. *)
Theorem only_sync_extends_the_log
    (listeners : string -> Payload -> Hints -> Hints * option Error)
    (ops : list Op) (s : Source) :
  transformLog s `prefix_of` transformLog (run listeners ops s) /\
  (NoDup (transformLog s) -> NoDup (transformLog (run listeners ops s))) /\
  (forallb (fun op => negb (is_sync op)) ops = true ->
   transformLog (run listeners ops s) = transformLog s).
Proof.
  revert s. induction ops as [| op ops IH]; intros s.
  - cbn. repeat split; auto.
  - cbn [run foldl]. destruct (IH (step listeners op s)) as (Hpre & Hnodup & Hsame).
    unfold run in *.
    destruct (step_log listeners op s) as [Hlog | (transform & -> & Hout & Hlog)].
    + rewrite Hlog in *. split; [exact Hpre |]. split; [exact Hnodup |].
      cbn [forallb]. intros H. apply andb_prop in H as [_ H]. auto.
    + rewrite Hlog in *. split; [| split].
      * transitivity (transformLog s ++ [Transform.id transform]);
          [apply prefix_app_r; reflexivity | exact Hpre].
      * intros Hnd. apply Hnodup. apply NoDup_app. split; [exact Hnd |].
        split; [| apply NoDup_singleton].
        intros x Hx Hx'. apply list_elem_of_singleton in Hx'. subst. contradiction.
      * cbn. discriminate.
Qed.

Lemma only_sync_extends_the_log_witness :
  transformLog (run cachingListeners
                    [Deliver (UpdateMessage t1); Process; CallUpdate t1;
                     Deliver (SuccessMessage "t1" VUndefined)]
                    live)
  = transformLog live.
Proof.
  apply (proj2 (proj2 (only_sync_extends_the_log cachingListeners
                         [Deliver (UpdateMessage t1); Process; CallUpdate t1;
                          Deliver (SuccessMessage "t1" VUndefined)]
                         live))).
  reflexivity.
Defined.

(** * The earlier variants *)

Lemma node_posted_app {Msg V} (es es' : list (Node.Effect Msg V)) :
  Node.posted (es ++ es') = Node.posted es ++ Node.posted es'.
Proof.
  induction es as [| e es IH]; [reflexivity |].
  destruct e; cbn; rewrite ?IH; reflexivity.
Qed.

Lemma node_postMessage_open {Msg V} (message : Msg) (s : Node.Source Msg V)
    (c : Channel) :
  Node.channel s = Some c -> closed c = false ->
  Node.postMessage message s = (Node.emit (Node.PostMessage message) s, Ok tt).
Proof. intros Hc Hopen. unfold Node.postMessage. rewrite Hc, Hopen. reflexivity. Qed.

Lemma node_resume_assignable {Msg V} (id : string) (k : V -> Value)
    (s : Node.Source Msg V) :
  Node.assignable id s = true ->
  Node.resume id k s
  = (Node.register id (length (Node.promises s))
       (Node.set_promises (Node.promises s ++ [None]) s),
     Node.Awaiting (length (Node.promises s)) k).
Proof. intros Hid. unfold Node.resume. rewrite Hid. reflexivity. Qed.

Lemma node_request_open {Msg V} (message : Msg) (id : string) (k : V -> Value)
    (s : Node.Source Msg V) (c : Channel) :
  Node.channel s = Some c -> closed c = false ->
  Node.assignable id s = true ->
  Node.request message id k s
  = (Node.register id (length (Node.promises s))
       (Node.set_promises (Node.promises s ++ [None])
          (Node.emit (Node.PostMessage message) s)),
     Node.Awaiting (length (Node.promises s)) k).
Proof.
  intros Hc Hopen Hid. unfold Node.request.
  rewrite (node_postMessage_open message s c Hc Hopen).
  apply (node_resume_assignable id k (Node.emit (Node.PostMessage message) s)).
  exact Hid.
Qed.

(** After a request on an open channel, under an id the object can be
    assigned under, the caller is suspended, with its entry in the table
    and its promise pending. *)
Lemma node_request_pending {Msg V} (message : Msg) (id : string) (k : V -> Value)
    (s : Node.Source Msg V) (c : Channel) :
  Node.channel s = Some c -> closed c = false ->
  Node.assignable id s = true ->
  let s' := fst (Node.request message id k s) in
  Node._requests s' !! id = Some (length (Node.promises s)) /\
  Node.promises s' !! length (Node.promises s) = Some None /\
  Node.posted (Node.effects s') = Node.posted (Node.effects s) ++ [message] /\
  Node.outcome (snd (Node.request message id k s)) s' = None.
Proof.
  intros Hc Hopen Hid. cbv zeta.
  rewrite (node_request_open message id k s c Hc Hopen Hid). cbn.
  assert (Hnew : (Node.promises s ++ [None]) !! length (Node.promises s)
                 = Some (@None V)).
  { rewrite lookup_app_r by lia. rewrite Nat.sub_diag. reflexivity. }
  rewrite lookup_insert_eq, Hnew, node_posted_app. repeat split.
Qed.

Lemma node_call_resolve_pending {Msg V} (p : nat) (value : V)
    (s : Node.Source Msg V) :
  Node.promises s !! p = Some None ->
  Node.call_resolve p value s
  = Node.set_promises (<[p := Some value]> (Node.promises s))
      (Node.emit (Node.Invoke p value) s).
Proof. intros Hp. unfold Node.call_resolve. cbn. rewrite Hp. reflexivity. Qed.

(** Under a name the map binds the stored closure is called. *)
Lemma node_call_entry_bound {Msg V} (expression : string) (undefined : V)
    (compiles : V -> bool) (id : string) (value : V) (s : Node.Source Msg V)
    (p : nat) :
  Node._requests s !! id = Some p ->
  Node.call_entry expression undefined compiles id value s
  = (Node.call_resolve p value s, Ok tt).
Proof. intros Hentry. unfold Node.call_entry. rewrite Hentry. reflexivity. Qed.

Ltac list_members :=
  unfold Node.returning, Node.read_only, Node.members, Node.object_members,
    Node.function_members;
  cbn [app]; rewrite ?elem_of_cons, ?elem_of_nil.

Ltac no_member :=
  let H := fresh "H" in
  list_members; intros H;
  repeat (destruct H as [H | H]; [discriminate H |]); exact H.

(** A name that is no member of the prototype chain finds nothing. *)
Lemma node_inherited_nothing {Msg V} (s : Node.Source Msg V) (id : string) :
  id ∉ Node.members -> Node.inherited s id = Node.NotAFunction.
Proof.
  intros Hout. unfold Node.inherited.
  assert (Hno : forall name, name ∈ Node.members -> id <> name)
    by (intros name Hin ->; exact (Hout Hin)).
  rewrite (bool_decide_eq_false_2 (id ∈ Node.returning)).
  2:{ intros Hin. apply Hout. revert Hin. list_members. tauto. }
  rewrite (bool_decide_eq_false_2 (id = "toLocaleString"))
    by (apply Hno; list_members; tauto).
  rewrite (bool_decide_eq_false_2 (id = "constructor"))
    by (apply Hno; list_members; tauto).
  rewrite (bool_decide_eq_false_2 (id = "toString"))
    by (apply Hno; list_members; tauto).
  rewrite (bool_decide_eq_false_2 (id ∈ ["__defineGetter__"; "__defineSetter__"])).
  2:{ intros Hin. apply Hout. revert Hin. list_members. tauto. }
  rewrite (bool_decide_eq_false_2
             (id ∈ ["apply"; "arguments"; "bind"; "call"; "caller"])).
  2:{ intros Hin. apply Hout. revert Hin. list_members. tauto. }
  rewrite andb_false_r. reflexivity.
Qed.

(** With [Object.prototype] as prototype, these names find a method that
    returns. *)
Lemma node_inherited_returns {Msg V} (s : Node.Source Msg V) (id : string) :
  Node._requests s !! "__proto__" = None ->
  id ∈ "constructor" :: "toString" :: Node.returning ->
  Node.inherited s id = Node.Returns.
Proof.
  intros Hproto Hin. unfold Node.inherited, Node.replaced. rewrite Hproto.
  unfold Node.returning in Hin. rewrite !elem_of_cons, elem_of_nil in Hin.
  destruct Hin as [-> | [-> | [-> | [-> | [-> | [-> | [-> | [-> | []]]]]]]]];
    reflexivity.
Qed.

Lemma node_call_entry_nothing {Msg V} (expression : string) (undefined : V)
    (compiles : V -> bool) (id : string) (value : V) (s : Node.Source Msg V) :
  Node._requests s !! id = None -> id ∉ Node.members ->
  Node.call_entry expression undefined compiles id value s
  = (s, Throw (TypeError (expression ++ " is not a function"))).
Proof.
  intros Hnone Hout. unfold Node.call_entry.
  rewrite Hnone, (node_inherited_nothing s id Hout). reflexivity.
Qed.

Lemma node_call_entry_returns {Msg V} (expression : string) (undefined : V)
    (compiles : V -> bool) (id : string) (value : V) (s : Node.Source Msg V) :
  Node._requests s !! id = None ->
  Node._requests s !! "__proto__" = None ->
  id ∈ "constructor" :: "toString" :: Node.returning ->
  Node.call_entry expression undefined compiles id value s = (s, Ok tt).
Proof.
  intros Hnone Hproto Hin. unfold Node.call_entry.
  rewrite Hnone, (node_inherited_returns s id Hproto Hin). reflexivity.
Qed.

Lemma node_delete_entry_none {Msg V} (id : string) (s : Node.Source Msg V) :
  Node._requests s !! id = None -> Node.delete_entry id s = (s, Ok tt).
Proof.
  intros Hnone. unfold Node.delete_entry.
  destruct (decide (id = "__proto__")); [reflexivity |].
  rewrite Hnone. reflexivity.
Qed.

(** ** The interim variant *)

(** X14: in the interim variant a failure of the peer never reaches the
    caller.  When the [beforePull] chain of the proxying peer rejects, the
    peer posts an [error] message; on the requesting node [handleMessage]
    throws the carried error to whoever delivered the message, leaves the
    entry of the request in the table, and the caller of [_pull] stays
    suspended.  (The request is one the table can be assigned under: see
    [Node.assignable].) *)
Theorem interim_error_reply_is_thrown
    (listeners : string -> Payload -> Hints -> Hints * option Error)
    (query : Query.t) (a b : Interim.Source) (ca cb : Channel)
    (hints : Hints) (error : Error) :
  Node.channel a = Some ca -> closed ca = false ->
  Node.channel b = Some cb -> closed cb = false ->
  Node.assignable (Query.id query) a = true ->
  listeners "beforePull" (PQuery query) emptyHints = (hints, Some error) ->
  let a1 := fst (Interim._pull query a) in
  let b1 := fst (Interim.__proxyPull__ listeners query b) in
  Node.posted (Node.effects b1)
  = Node.posted (Node.effects b) ++ [Interim.ErrorMessage (Query.id query) error] /\
  Interim.handleMessage (Interim.ErrorMessage (Query.id query) error) a1
  = (a1, Throw error) /\
  is_Some (Node._requests a1 !! Query.id query) /\
  Node.outcome (snd (Interim._pull query a)) a1 = None.
Proof.
  intros Hca Hopena Hcb Hopenb Hid Hl. cbv zeta.
  destruct (node_request_pending (Interim.PullMessage query) (Query.id query)
              (fun _ => VArray []) a ca Hca Hopena Hid) as (Hentry & _ & _ & Hout).
  split; [| split; [reflexivity | split; [eexists; exact Hentry | exact Hout]]].
  unfold Interim.__proxyPull__, Node.try_catch, Node.seq, Node.bind,
    Node.fulfillInSeries, Node.settleInSeries, Node.ret.
  rewrite Hl. cbn.
  rewrite (node_postMessage_open _ _ cb) by assumption. cbn.
  rewrite !node_posted_app. cbn. rewrite !app_nil_r. reflexivity.
Qed.

Lemma interim_error_reply_is_thrown_witness :
  let a1 := fst (Interim._pull q1 interimLive) in
  Interim.handleMessage (Interim.ErrorMessage "q1" (GenericError "ValidationFailed")) a1
  = (a1, Throw (GenericError "ValidationFailed")) /\
  Node.outcome (snd (Interim._pull q1 interimLive)) a1 = None.
Proof.
  destruct (interim_error_reply_is_thrown
              (fun _ _ h => (h, Some (GenericError "ValidationFailed")))
              q1 interimLive interimLive
              (mkChannel "orbit" false) (mkChannel "orbit" false)
              emptyHints (GenericError "ValidationFailed")
              eq_refl eq_refl eq_refl eq_refl eq_refl eq_refl) as (_ & H1 & _ & H2).
  split; [exact H1 | exact H2].
Defined.

(** X15: in the interim variant a forwarded push is never answered by a
    peer running the same variant: [_push] of a transform the log does not
    hold posts the [push] message and suspends its caller, while
    [handleMessage] has no case for [push] or [update] messages and leaves
    the peer exactly as it was, with nothing queued and nothing posted.
    (The request is one the table can be assigned under.) *)
Theorem interim_push_is_never_answered (transform : Transform.t)
    (a b : Interim.Source) (ca : Channel) :
  Node.channel a = Some ca -> closed ca = false ->
  Node.assignable (Transform.id transform) a = true ->
  Transform.id transform ∉ Node.transformLog a ->
  let a1 := fst (Interim._push transform a) in
  Node.posted (Node.effects a1)
  = Node.posted (Node.effects a) ++ [Interim.PushMessage transform] /\
  Interim.handleMessage (Interim.PushMessage transform) b = (b, Ok tt) /\
  Interim.handleMessage (Interim.UpdateMessage transform) b = (b, Ok tt) /\
  Node.outcome (snd (Interim._push transform a)) a1 = None.
Proof.
  intros Hca Hopena Hid Hout. apply contains_false in Hout. cbv zeta.
  destruct (node_request_pending (Interim.PushMessage transform)
              (Transform.id transform) (fun _ => VArray []) a ca Hca Hopena Hid)
    as (_ & _ & Hposted & Hsusp).
  unfold Interim._push. rewrite Hout. cbn [negb].
  split; [exact Hposted |]. split; [reflexivity |]. split; [reflexivity |].
  exact Hsusp.
Qed.

Lemma interim_push_is_never_answered_witness :
  Interim.handleMessage (Interim.PushMessage t1) interimLive = (interimLive, Ok tt) /\
  Node.outcome (snd (Interim._push t1 interimLive))
               (fst (Interim._push t1 interimLive)) = None.
Proof.
  destruct (interim_push_is_never_answered t1 interimLive interimLive
              (mkChannel "orbit" false) eq_refl eq_refl eq_refl
              ltac:(apply contains_false; reflexivity)) as (_ & H1 & _ & H2).
  split; [exact H1 | exact H2].
Defined.

Lemma interim_routes_results (message : Interim.Message) (id : string)
    (result : Value) :
  Interim.result_of message = Some (id, result) ->
  Interim.handleMessage message = Interim.resolveRequest id result.
Proof.
  intros Hmessage. destruct message; cbn in Hmessage; try discriminate;
    injection Hmessage as <- <-; reflexivity.
Qed.

(** A result message for a pending request: the closure is called, then
    the [delete] runs on the table. *)
Lemma interim_routed (s : Interim.Source) (message : Interim.Message)
    (id : string) (result : Value) (p : nat) :
  Interim.result_of message = Some (id, result) ->
  Node._requests s !! id = Some p -> Node.promises s !! p = Some None ->
  Interim.handleMessage message s
  = Node.delete_entry id
      (Node.set_promises (<[p := Some result]> (Node.promises s))
         (Node.emit (Node.Invoke p result) s)).
Proof.
  intros Hmessage Hentry Hpending.
  rewrite (interim_routes_results message id result Hmessage).
  unfold Interim.resolveRequest, Node.seq, Node.bind.
  rewrite (node_call_entry_bound _ _ _ id result s p Hentry).
  rewrite (node_call_resolve_pending p result s Hpending). reflexivity.
Qed.

Lemma node_delete_entry_promises {Msg V} (id : string) (s : Node.Source Msg V) :
  snd (Node.delete_entry id s) = Ok tt /\
  Node.promises (fst (Node.delete_entry id s)) = Node.promises s.
Proof.
  unfold Node.delete_entry.
  destruct (decide (id = "__proto__")); [split; reflexivity |].
  destruct (Node._requests s !! id); split; reflexivity.
Qed.

(** X16: in the interim variant each of the four result messages, routed
    to a pending request, calls the stored closure with the result the
    message carries ([undefined] for [pull-result] and [push-result]) and
    only then runs the [delete], which removes the entry, except under
    the id "__proto__", where it removes nothing and the entry stays.
    For an id without an entry the outcome is what the prototype chain of
    the table answers: a [TypeError] with nothing changed when the id
    names no member of it; but under [constructor], [toString],
    [valueOf] and the other returning methods of [Object.prototype] the
    method found there is called, the message is swallowed without an
    error, and nothing changes. *)
Theorem interim_result_resolves_then_deletes (s : Interim.Source)
    (message : Interim.Message) (id : string) (result : Value) :
  Interim.result_of message = Some (id, result) ->
  (forall p,
      Node._requests s !! id = Some p -> Node.promises s !! p = Some None ->
      snd (Interim.handleMessage message s) = Ok tt /\
      Node.promises (fst (Interim.handleMessage message s))
      = <[p := Some result]> (Node.promises s) /\
      (id <> "__proto__" ->
       Node._requests (fst (Interim.handleMessage message s))
       = delete id (Node._requests s) /\
       Node.effects (fst (Interim.handleMessage message s))
       = Node.effects s ++ [Node.Invoke p result; Node.Removed id]) /\
      (id = "__proto__" ->
       Node._requests (fst (Interim.handleMessage message s)) = Node._requests s /\
       Node.effects (fst (Interim.handleMessage message s))
       = Node.effects s ++ [Node.Invoke p result])) /\
  (Node._requests s !! id = None ->
   (id ∉ Node.members ->
    Interim.handleMessage message s
    = (s, Throw (TypeError "this._requests[requestId] is not a function"))) /\
   (Node._requests s !! "__proto__" = None ->
    id ∈ "constructor" :: "toString" :: Node.returning ->
    Interim.handleMessage message s = (s, Ok tt))).
Proof.
  intros Hmessage. split.
  - intros p Hentry Hpending.
    rewrite (interim_routed s message id result p Hmessage Hentry Hpending).
    split; [apply node_delete_entry_promises |].
    split; [exact (proj2 (node_delete_entry_promises id
                            (Node.set_promises (<[p := Some result]> (Node.promises s))
                               (Node.emit (Node.Invoke p result) s)))) |].
    split.
    + intros Hid. unfold Node.delete_entry.
      rewrite decide_False by exact Hid. cbn. rewrite Hentry. cbn.
      rewrite <- app_assoc. split; reflexivity.
    + intros Hid. unfold Node.delete_entry.
      rewrite decide_True by exact Hid. split; reflexivity.
  - intros Hnone.
    rewrite (interim_routes_results message id result Hmessage).
    unfold Interim.resolveRequest, Node.seq, Node.bind. split.
    + intros Hout.
      rewrite (node_call_entry_nothing _ _ _ id result s Hnone Hout).
      reflexivity.
    + intros Hproto Hin.
      rewrite (node_call_entry_returns _ _ _ id result s Hnone Hproto Hin).
      apply node_delete_entry_none. exact Hnone.
Qed.

Lemma interim_result_resolves_then_deletes_witness :
  let s := fst (Interim._query q1 interimLive) in
  Node._requests (fst (Interim.handleMessage
                         (Interim.QueryResultMessage "q1" (VData "rows")) s))
  = delete "q1" (Node._requests s) /\
  Interim.handleMessage (Interim.PushResultMessage "t9") s
  = (s, Throw (TypeError "this._requests[requestId] is not a function")) /\
  Interim.handleMessage (Interim.PushResultMessage "toString") s = (s, Ok tt).
Proof.
  cbv zeta. split; [| split].
  - apply (proj1 (proj2 (proj2 (proj1 (interim_result_resolves_then_deletes
                    (fst (Interim._query q1 interimLive))
                    (Interim.QueryResultMessage "q1" (VData "rows"))
                    "q1" (VData "rows") eq_refl) 0 eq_refl eq_refl)))).
    discriminate.
  - apply (proj1 (proj2 (interim_result_resolves_then_deletes
                    (fst (Interim._query q1 interimLive))
                    (Interim.PushResultMessage "t9") "t9" VUndefined eq_refl)
                   eq_refl)).
    no_member.
  - apply (proj2 (proj2 (interim_result_resolves_then_deletes
                    (fst (Interim._query q1 interimLive))
                    (Interim.PushResultMessage "toString") "toString" VUndefined
                    eq_refl) eq_refl) eq_refl).
    apply elem_of_cons. right. apply elem_of_cons. left. reflexivity.
Defined.

Lemma interim_request_resolved (message reply' : Interim.Message) (id : string)
    (k : Value -> Value) (result : Value) (a : Interim.Source) (c : Channel) :
  Node.channel a = Some c -> closed c = false ->
  Node.assignable id a = true ->
  Interim.result_of reply' = Some (id, result) ->
  Node.outcome (snd (Node.request message id k a))
               (fst (Interim.handleMessage reply' (fst (Node.request message id k a))))
  = Some (Ok (k result)).
Proof.
  intros Hc Hopen Hid Hreply.
  destruct (node_request_pending message id k a c Hc Hopen Hid)
    as (Hentry & Hpending & _ & _).
  rewrite (interim_routed _ reply' id result _ Hreply Hentry Hpending).
  unfold Node.outcome.
  rewrite (proj2 (node_delete_entry_promises id _)).
  rewrite (node_request_open message id k a c Hc Hopen Hid). cbn.
  rewrite list_lookup_insert_eq; [reflexivity |].
  rewrite length_app. cbn. lia.
Qed.

(** X17: in the interim variant a read forwarded from node [a] and
    proxied by a peer [b] whose before-read chain fulfils (both on open
    channels) comes back: the peer posts [query-result] with the data its
    listeners left in the hints and [_query] on [a] resolves with that
    data; it posts [pull-result], which carries nothing, and [_pull] on
    [a] resolves with the empty list.  (The request is one the table can
    be assigned under.) *)
Theorem interim_read_round_trip
    (listeners : string -> Payload -> Hints -> Hints * option Error)
    (query : Query.t) (a b : Interim.Source) (ca cb : Channel) (hints : Hints) :
  Node.channel a = Some ca -> closed ca = false ->
  Node.channel b = Some cb -> closed cb = false ->
  Node.assignable (Query.id query) a = true ->
  (listeners "beforeQuery" (PQuery query) emptyHints = (hints, None) ->
   Node.posted (Node.effects (fst (Interim.__proxyQuery__ listeners query b)))
   = Node.posted (Node.effects b)
     ++ [Interim.QueryResultMessage (Query.id query) (hints_data hints)] /\
   Node.outcome (snd (Interim._query query a))
     (fst (Interim.handleMessage
             (Interim.QueryResultMessage (Query.id query) (hints_data hints))
             (fst (Interim._query query a))))
   = Some (Ok (hints_data hints))) /\
  (listeners "beforePull" (PQuery query) emptyHints = (hints, None) ->
   Node.posted (Node.effects (fst (Interim.__proxyPull__ listeners query b)))
   = Node.posted (Node.effects b) ++ [Interim.PullResultMessage (Query.id query)] /\
   Node.outcome (snd (Interim._pull query a))
     (fst (Interim.handleMessage (Interim.PullResultMessage (Query.id query))
             (fst (Interim._pull query a))))
   = Some (Ok (VArray []))).
Proof.
  intros Hca Hopena Hcb Hopenb Hid. split.
  - intros Hl. split.
    + unfold Interim.__proxyQuery__, Node.try_catch, Node.seq, Node.bind,
        Node.fulfillInSeries, Node.settleInSeries, Node.ret.
      rewrite Hl. cbn.
      rewrite (node_postMessage_open _ _ cb) by assumption. cbn.
      rewrite !node_posted_app. cbn. rewrite !app_nil_r. reflexivity.
    + exact (interim_request_resolved (Interim.QueryMessage query)
               (Interim.QueryResultMessage (Query.id query) (hints_data hints))
               (Query.id query) (fun result => result) (hints_data hints)
               a ca Hca Hopena Hid eq_refl).
  - intros Hl. split.
    + unfold Interim.__proxyPull__, Node.try_catch, Node.seq, Node.bind,
        Node.fulfillInSeries, Node.settleInSeries, Node.ret.
      rewrite Hl. cbn.
      rewrite (node_postMessage_open _ _ cb) by assumption. cbn.
      rewrite !node_posted_app. cbn. rewrite !app_nil_r. reflexivity.
    + exact (interim_request_resolved (Interim.PullMessage query)
               (Interim.PullResultMessage (Query.id query))
               (Query.id query) (fun _ => VArray []) VUndefined
               a ca Hca Hopena Hid eq_refl).
Qed.

Lemma interim_read_round_trip_witness :
  Node.outcome (snd (Interim._query q1 interimLive))
    (fst (Interim.handleMessage (Interim.QueryResultMessage "q1" (VData "rows"))
            (fst (Interim._query q1 interimLive))))
  = Some (Ok (VData "rows")).
Proof.
  exact (proj2 (proj1 (interim_read_round_trip answeringListeners q1
                         interimLive interimLive
                         (mkChannel "orbit" false) (mkChannel "orbit" false)
                         (mkHints (Some (VData "rows")))
                         eq_refl eq_refl eq_refl eq_refl eq_refl) eq_refl)).
Defined.

Lemma node_assignable_outside {Msg V} (id : string) (s : Node.Source Msg V) :
  id ∉ Node.read_only -> Node.assignable id s = true.
Proof.
  intros Hout. unfold Node.assignable.
  rewrite (bool_decide_eq_false_2 (id ∈ Node.read_only)) by exact Hout.
  rewrite andb_false_r. reflexivity.
Qed.

(** X24: in the two earlier variants, once a request was made under the
    id "__proto__" (which makes its [resolve] closure, a function, the
    prototype of the table), a request under [length], [name],
    [arguments] or [caller] that the table holds no entry for is posted
    but cannot be registered: the assignment throws inside the executor,
    the caller is rejected with the [TypeError], the table and the
    promises stay as they were, and the call a result message for it
    makes on the table throws. *)
Theorem request_under_a_read_only_name_is_refused {Msg V}
    (message : Msg) (id : string) (k : V -> Value) (s : Node.Source Msg V)
    (c : Channel) :
  Node.channel s = Some c -> closed c = false ->
  is_Some (Node._requests s !! "__proto__") ->
  id ∈ Node.read_only ->
  Node._requests s !! id = None ->
  Node.request message id k s
  = (Node.emit (Node.PostMessage message) s,
     Node.Rejected (TypeError "Cannot assign to read only property")) /\
  forall expression undefined compiles value,
  exists error,
    Node.call_entry expression undefined compiles id value
      (fst (Node.request message id k s))
    = (fst (Node.request message id k s), Throw error).
Proof.
  intros Hc Hopen Hproto Hin Hnone.
  assert (Hno : Node.assignable id (Node.emit (Node.PostMessage message) s) = false).
  { unfold Node.assignable, Node.replaced. cbn.
    rewrite (bool_decide_eq_true_2 _ Hproto), (bool_decide_eq_true_2 _ Hin),
      (bool_decide_eq_true_2 _ Hnone). reflexivity. }
  assert (Hrequest : Node.request message id k s
                     = (Node.emit (Node.PostMessage message) s,
                        Node.Rejected (TypeError "Cannot assign to read only property"))).
  { unfold Node.request.
    rewrite (node_postMessage_open _ s c Hc Hopen).
    unfold Node.resume. rewrite Hno. reflexivity. }
  split; [exact Hrequest |].
  intros expression undefined compiles value.
  rewrite Hrequest. cbn [fst].
  unfold Node.call_entry.
  cbn [Node._requests Node.emit]. rewrite Hnone.
  unfold Node.inherited, Node.replaced. cbn [Node._requests Node.emit].
  rewrite (bool_decide_eq_true_2 _ Hproto).
  unfold Node.read_only in Hin. rewrite !elem_of_cons, elem_of_nil in Hin.
  destruct Hin as [-> | [-> | [-> | [-> | []]]]]; cbn; eexists; reflexivity.
Qed.

Lemma request_under_a_read_only_name_is_refused_witness :
  let a := fst (Interim._pull (Query.mk "__proto__" "findRecords") interimLive) in
  let d := fst (Draft._pull (Query.mk "__proto__" "findRecords") draftLive) in
  Interim._pull (Query.mk "length" "findRecords") a
  = (Node.emit (Node.PostMessage
                  (Interim.PullMessage (Query.mk "length" "findRecords"))) a,
     Node.Rejected (TypeError "Cannot assign to read only property")) /\
  Interim._push (Transform.mk "name" ["addRecord"]) a
  = (Node.emit (Node.PostMessage
                  (Interim.PushMessage (Transform.mk "name" ["addRecord"]))) a,
     Node.Rejected (TypeError "Cannot assign to read only property")) /\
  Draft._pull (Query.mk "caller" "findRecords") d
  = (Node.emit (Node.PostMessage
                  (Draft.QueryMessage (Query.mk "caller" "findRecords"))) d,
     Node.Rejected (TypeError "Cannot assign to read only property")).
Proof.
  cbv zeta. split; [| split].
  - apply (request_under_a_read_only_name_is_refused
             (Interim.PullMessage (Query.mk "length" "findRecords")) "length"
             (fun _ => VArray [])
             (fst (Interim._pull (Query.mk "__proto__" "findRecords") interimLive))
             (mkChannel "orbit" false) eq_refl eq_refl).
    + eexists. reflexivity.
    + list_members. tauto.
    + reflexivity.
  - apply (request_under_a_read_only_name_is_refused
             (Interim.PushMessage (Transform.mk "name" ["addRecord"])) "name"
             (fun _ => VArray [])
             (fst (Interim._pull (Query.mk "__proto__" "findRecords") interimLive))
             (mkChannel "orbit" false) eq_refl eq_refl).
    + eexists. reflexivity.
    + list_members. tauto.
    + reflexivity.
  - apply (request_under_a_read_only_name_is_refused
             (Draft.QueryMessage (Query.mk "caller" "findRecords")) "caller"
             (fun _ => VArray [])
             (fst (Draft._pull (Query.mk "__proto__" "findRecords") draftLive))
             (mkChannel "orbit" false) eq_refl eq_refl).
    + eexists. reflexivity.
    + list_members. tauto.
    + reflexivity.
Defined.

(** X25: in the interim variant the entry of a request is stored only
    when the method resumes after its [await] on the post.  A result
    message handled in between finds no closure: [handleMessage] throws a
    [TypeError] and the result is gone; the resumption then registers the
    entry and the caller stays suspended.  The state after the
    resumption is the state after the whole call.  (Stated for an id
    that names no member of the prototype chain.) *)
Theorem interim_result_inside_the_await_is_lost
    (query : Query.t) (a : Interim.Source) (c : Channel) (result : Value) :
  Node.channel a = Some c -> closed c = false ->
  Node._requests a !! Query.id query = None ->
  Query.id query ∉ Node.members ->
  let sent := fst (Node.postMessage (Interim.QueryMessage query) a) in
  let resumed := Node.resume (Query.id query) (fun r : Value => r) sent in
  Interim.handleMessage (Interim.QueryResultMessage (Query.id query) result) sent
  = (sent, Throw (TypeError "this._requests[requestId] is not a function")) /\
  is_Some (Node._requests (fst resumed) !! Query.id query) /\
  Node.outcome (snd resumed) (fst resumed) = None /\
  resumed = Interim._query query a.
Proof.
  intros Hc Hopen Hnone Hout. cbv zeta.
  assert (Hid : Node.assignable (Query.id query) a = true).
  { apply node_assignable_outside. intros Hin. apply Hout. revert Hin.
    list_members. tauto. }
  destruct (node_request_pending (Interim.QueryMessage query) (Query.id query)
              (fun r : Value => r) a c Hc Hopen Hid) as (Hentry & _ & _ & Hsusp).
  assert (Hwhole : Node.resume (Query.id query) (fun r : Value => r)
                     (fst (Node.postMessage (Interim.QueryMessage query) a))
                   = Interim._query query a).
  { unfold Interim._query, Node.request.
    rewrite (node_postMessage_open _ a c Hc Hopen). reflexivity. }
  rewrite Hwhole.
  split; [| split; [eexists; exact Hentry | split; [exact Hsusp | reflexivity]]].
  rewrite (node_postMessage_open _ a c Hc Hopen). cbn [fst Interim.handleMessage].
  unfold Interim.resolveRequest, Node.seq, Node.bind.
  rewrite (node_call_entry_nothing _ _ _ (Query.id query) result
             (Node.emit (Node.PostMessage (Interim.QueryMessage query)) a)
             Hnone Hout).
  reflexivity.
Qed.

Lemma interim_result_inside_the_await_is_lost_witness :
  let sent := fst (Node.postMessage (Interim.QueryMessage q1) interimLive) in
  Interim.handleMessage (Interim.QueryResultMessage "q1" (VData "rows")) sent
  = (sent, Throw (TypeError "this._requests[requestId] is not a function")).
Proof.
  cbv zeta.
  apply (interim_result_inside_the_await_is_lost q1 interimLive
           (mkChannel "orbit" false) (VData "rows") eq_refl eq_refl eq_refl).
  no_member.
Defined.

(** ** The first draft *)

(** X18: in the first draft [_push] is [_sync] with a result: both leave
    the node in the same state.  A transform the log holds is skipped with
    an empty list; otherwise, on an open channel, the [transform] message
    is posted, the transform is applied locally and returned, no reply is
    awaited, and pushing it again posts nothing and returns the empty
    list. *)
Theorem draft_push_applies_locally (transform : Transform.t) (s : Draft.Source) :
  fst (Draft._push transform s) = fst (Draft._sync transform s) /\
  (Transform.id transform ∈ Node.transformLog s ->
   Draft._push transform s = (s, Ok (VArray []))) /\
  (Transform.id transform ∉ Node.transformLog s ->
   forall c, Node.channel s = Some c -> closed c = false ->
   snd (Draft._push transform s) = Ok (VArray [transform]) /\
   Node.posted (Node.effects (fst (Draft._push transform s)))
   = Node.posted (Node.effects s) ++ [Draft.TransformMessage transform] /\
   Node.transformLog (fst (Draft._push transform s))
   = Node.transformLog s ++ [Transform.id transform] /\
   Node._requests (fst (Draft._push transform s)) = Node._requests s /\
   Draft._push transform (fst (Draft._push transform s))
   = (fst (Draft._push transform s), Ok (VArray []))).
Proof.
  split; [| split].
  - unfold Draft._push, Draft._sync, Node.seq, Node.bind, Node.postMessage.
    destruct (contains _ _); cbn [negb]; [reflexivity |].
    destruct (Node.channel s) as [c |]; [destruct (closed c) |]; reflexivity.
  - intros Hin. apply contains_true in Hin. unfold Draft._push.
    rewrite Hin. reflexivity.
  - intros Hout c Hc Hopen. apply contains_false in Hout.
    assert (Hrun : Draft._push transform s
                   = (Node.emit (Node.Transformed [transform])
                        (Node.set_transformLog
                           (Node.transformLog s ++ [Transform.id transform])
                           (Node.emit (Node.PostMessage (Draft.TransformMessage transform)) s)),
                      Ok (VArray [transform]))).
    { unfold Draft._push, Node.seq, Node.bind. rewrite Hout. cbn [negb].
      rewrite (node_postMessage_open _ s c Hc Hopen). cbn.
      unfold log_append. rewrite Hout. reflexivity. }
    rewrite Hrun. cbn [fst snd].
    split; [reflexivity |].
    split; [cbn; rewrite !node_posted_app; cbn; rewrite app_nil_r; reflexivity |].
    split; [reflexivity |]. split; [reflexivity |].
    unfold Draft._push. cbn [Node.transformLog Node.emit Node.set_transformLog].
    assert (Hin : contains (Node.transformLog s ++ [Transform.id transform])
                           (Transform.id transform) = true).
    { apply contains_true. apply elem_of_app. right. apply list_elem_of_singleton.
      reflexivity. }
    rewrite Hin. reflexivity.
Qed.

Lemma draft_push_applies_locally_witness :
  snd (Draft._push t1 draftLive) = Ok (VArray [t1]) /\
  Draft._push t1 (fst (Draft._push t1 draftLive))
  = (fst (Draft._push t1 draftLive), Ok (VArray [])).
Proof.
  destruct (proj2 (proj2 (draft_push_applies_locally t1 draftLive))
              ltac:(apply contains_false; reflexivity)
              (mkChannel "orbit" false) eq_refl eq_refl)
    as (H1 & _ & _ & _ & H2).
  split; [exact H1 | exact H2].
Defined.




(** X20: the exchange of the first draft.  A node [a] pulls a query; when
    a peer [b] runs [_query] on that query with hints whose data is
    truthy, it posts a [result] message and returns the data, and that
    message, delivered to [a], resolves the caller of [_pull] with the
    empty list.  With hints that hold no data, or without hints, the peer
    posts nothing and changes nothing; until a [result] message arrives
    the caller on [a] stays suspended.  (The request is one the table
    can be assigned under.) *)
Theorem draft_pull_round_trip (query : Query.t) (a b : Draft.Source)
    (ca cb : Channel) (h : Hints) :
  Node.channel a = Some ca -> closed ca = false ->
  Node.channel b = Some cb -> closed cb = false ->
  Node.assignable (Query.id query) a = true ->
  (Draft.truthy (hints_data h) = true ->
   Draft._query query (Some h) b
   = (Node.emit (Node.PostMessage (Draft.ResultMessage query h)) b,
      Ok (hints_data h)) /\
   Node.outcome (snd (Draft._pull query a))
     (fst (Draft.onMessage (Draft.ResultMessage query h)
             (fst (Draft._pull query a))))
   = Some (Ok (VArray []))) /\
  (Draft.truthy (hints_data h) = false ->
   Draft._query query (Some h) b = (b, Ok VUndefined)) /\
  Draft._query query None b = (b, Ok VUndefined) /\
  Node.outcome (snd (Draft._pull query a)) (fst (Draft._pull query a)) = None.
Proof.
  intros Hca Hopena Hcb Hopenb Hid.
  destruct (node_request_pending (Draft.QueryMessage query) (Query.id query)
              (fun _ : option Hints => VArray []) a ca Hca Hopena Hid)
    as (Hentry & Hpending & _ & Hsusp).
  split; [| split; [| split; [reflexivity | exact Hsusp]]].
  - intros Htruthy. split.
    + unfold Draft._query. rewrite Htruthy. unfold Node.seq, Node.bind.
      rewrite (node_postMessage_open _ b cb Hcb Hopenb). reflexivity.
    + assert (Hnew : (Node.promises a ++ [None]) !! length (Node.promises a)
                     = Some (@None (option Hints))).
      { rewrite lookup_app_r by lia. rewrite Nat.sub_diag. reflexivity. }
      unfold Draft._pull.
      rewrite (node_request_open _ _ _ a ca Hca Hopena Hid). cbn [fst snd].
      cbn [Draft.onMessage]. unfold Draft.sendResult, Node.call_entry,
        Node.call_resolve. cbn.
      rewrite lookup_insert_eq. cbn. rewrite Hnew. cbn.
      rewrite list_lookup_insert_eq; [reflexivity |].
      rewrite length_app. cbn. lia.
  - intros Hfalsy. unfold Draft._query. rewrite Hfalsy. reflexivity.
Qed.

Lemma draft_pull_round_trip_witness :
  Node.outcome (snd (Draft._pull q1 draftLive))
    (fst (Draft.onMessage (Draft.ResultMessage q1 (mkHints (Some (VData "rows"))))
            (fst (Draft._pull q1 draftLive))))
  = Some (Ok (VArray [])) /\
  Draft._query q1 (Some emptyHints) draftLive = (draftLive, Ok VUndefined).
Proof.
  destruct (draft_pull_round_trip q1 draftLive draftLive
              (mkChannel "orbit" false) (mkChannel "orbit" false)
              (mkHints (Some (VData "rows")))
              eq_refl eq_refl eq_refl eq_refl eq_refl) as (Hdata & _).
  split; [exact (proj2 (Hdata eq_refl)) |].
  exact (proj1 (proj2 (draft_pull_round_trip q1 draftLive draftLive
                         (mkChannel "orbit" false) (mkChannel "orbit" false)
                         emptyHints eq_refl eq_refl eq_refl eq_refl eq_refl)) eq_refl).
Defined.

(** * Replication and the life cycle *)

(** X21: once [_sync] has run on an open channel, the transform counts as
    applied: a second [_sync] changes nothing and posts nothing, [_push]
    and [_update] of it return at once without posting, and the proxies
    of an inbound push or update of it return at once without running a
    listener chain. *)
Theorem replicated_transform_is_settled
    (listeners : string -> Payload -> Hints -> Hints * option Error)
    (transform : Transform.t) (s : Source) (c : Channel) :
  channel s = Some c -> closed c = false ->
  let s' := fst (_sync transform s) in
  Transform.id transform ∈ transformLog s' /\
  _sync transform s' = (s', Ok tt) /\
  _push transform s' = (s', Fulfilled (VArray [])) /\
  _update transform s' = (s', Fulfilled VUndefined) /\
  __proxyPush__ listeners transform s' = (s', Ok (VArray [])) /\
  __proxyUpdate__ listeners transform s' = (s', Ok (VArray [])).
Proof.
  intros Hc Hopen. cbv zeta.
  assert (Hin : contains (transformLog (fst (_sync transform s)))
                         (Transform.id transform) = true).
  { unfold _sync.
    destruct (contains (transformLog s) (Transform.id transform)) eqn:Hlog;
      cbn [negb]; [exact Hlog |].
    unfold bind. rewrite (postMessage_open _ s c Hc Hopen). cbn.
    unfold log_append. rewrite Hlog. apply contains_true.
    apply elem_of_app. right. apply list_elem_of_singleton. reflexivity. }
  split; [apply contains_true; exact Hin |].
  unfold _sync at 1, _push, _update, __proxyPush__, __proxyUpdate__.
  rewrite Hin. repeat split.
Qed.

Lemma replicated_transform_is_settled_witness :
  _push t1 (fst (_sync t1 live)) = (fst (_sync t1 live), Fulfilled (VArray [])) /\
  __proxyUpdate__ cachingListeners t1 (fst (_sync t1 live))
  = (fst (_sync t1 live), Ok (VArray [])).
Proof.
  destruct (replicated_transform_is_settled cachingListeners t1 live
              (mkChannel "orbit" false) eq_refl eq_refl)
    as (_ & _ & Hpush & _ & _ & Hproxy).
  split; [exact Hpush | exact Hproxy].
Defined.

(** X22: deactivation does nothing for the requests in flight: it leaves
    the Correlation Table and every promise as they were, so that no
    suspended caller is resolved or rejected by it, and once it has closed
    the channel the outbound calls that would post are rejected; a later
    activation opens a channel again under the same name, with the table
    still as it was. *)
Theorem deactivation_keeps_pending_requests (s : Source) (c : Channel)
    (call : Async Value) :
  channel s = Some c ->
  let s1 := fst (deactivate s) in
  let s2 := fst (_activate s1) in
  _requests s1 = _requests s /\
  promises s1 = promises s /\
  outcome call s1 = outcome call s /\
  post_failure s1
  = Some (GenericError "Cannot post message after channel has closed") /\
  channel s2 = Some (mkChannel (_channelName s) false) /\
  _requests s2 = _requests s /\
  post_failure s2 = None.
Proof.
  intros Hc. cbv zeta.
  unfold deactivate, bind, channel_close. rewrite Hc. cbn.
  repeat split.
Qed.

Lemma deactivation_keeps_pending_requests_witness :
  let s := fst (_update t1 live) in
  _requests (fst (deactivate s)) = _requests s /\
  outcome (snd (_update t1 live)) (fst (deactivate s)) = None.
Proof.
  destruct (deactivation_keeps_pending_requests (fst (_update t1 live))
              (mkChannel "orbit" false) (snd (_update t1 live)) eq_refl)
    as (H1 & _ & H2 & _).
  cbv zeta. split; [exact H1 |]. rewrite H2. reflexivity.
Defined.
